(** * Chain validation of incremental SQL files (streams examples)

    A shallow embedding of the four runnable scripts of the repository:

    - [EachHighland]   : src/streams/example-streams.js, first script
                         ([async.eachSeries] over a highland pipeline);
    - [FilterReadFile] : src/streams/example-streams.js, second script
                         ([async.filterSeries] over [fs.readFile]);
    - [EachReadFile]   : src/streams/example-streams.js, third script
                         ([async.eachSeries] over [fs.readFile]);
    - [FilterHighland] : src/unnamed/part_000
                         ([async.filterSeries] over a highland pipeline).

    The highland snippet of the blog post src/streams/streams.md is
    embedded beside them ([blog_main]).

    JavaScript strings are modelled as [string], a character being a code
    unit below 256.  The module-level variables [latest] and [validFiles]
    are threaded through the iteratee as an explicit [state]; what the
    iteratee does with its callback [cb] is the [signal] it returns. *)

From Stdlib Require Import Bool Arith NArith List Ascii String.
From Stdlib Require Import Sorted Permutation Lia.
Import ListNotations.

Open Scope string_scope.
Open Scope list_scope.

(** ** JavaScript strings *)

Module JS.

Definition LF : ascii := "010"%char.
Definition CR : ascii := "013"%char.
Definition SP : ascii := " "%char.

Definition nl : string := String LF "".
Definition crlf : string := String CR (String LF "").

(** [s.split(c)] for a one-character separator [c]: the pieces between
    the occurrences of [c]; there is always at least one piece. *)
Fixpoint split (sep : ascii) (s : string) : list string :=
  match s with
  | EmptyString => [""]
  | String c s' =>
      if Ascii.eqb c sep then "" :: split sep s'
      else match split sep s' with
           | p :: ps => String c p :: ps
           | [] => [String c ""]
           end
  end.

(** [s] without one carriage return at its end, if it has one. *)
Fixpoint chomp (s : string) : string :=
  match s with
  | EmptyString => ""
  | String c s' =>
      match s' with
      | EmptyString => if Ascii.eqb c CR then "" else s
      | String _ _ => String c (chomp s')
      end
  end.

(** [s.split(/\r?\n/)]: the text is cut at every line feed, and a
    carriage return just before the line feed belongs to the cut, so
    every piece but the last loses it. *)
Definition splitLines (s : string) : list string :=
  map chomp (removelast (split LF s)) ++ [last (split LF s) ""].

(** Whether the code unit [c] occurs in [s]. *)
Fixpoint occurs (c : ascii) (s : string) : bool :=
  match s with
  | EmptyString => false
  | String a s' => Ascii.eqb a c || occurs c s'
  end.

(** [a.pop()] on the array a [split] returns, which is never empty. *)
Definition pop (a : list string) : string := last a "".

(** WhiteSpace and LineTerminator code units below 256:
    TAB, LF, VT, FF, CR, SP and NBSP. *)
Definition is_white (c : ascii) : bool :=
  match nat_of_ascii c with
  | 9 | 10 | 11 | 12 | 13 | 32 | 160 => true
  | _ => false
  end.

Fixpoint trimStart (s : string) : string :=
  match s with
  | EmptyString => ""
  | String c s' => if is_white c then trimStart s' else s
  end.

Fixpoint trimEnd (s : string) : string :=
  match s with
  | EmptyString => ""
  | String c s' =>
      match trimEnd s' with
      | EmptyString => if is_white c then "" else String c ""
      | t => String c t
      end
  end.

(** [s.trim()] *)
Definition trim (s : string) : string := trimEnd (trimStart s).

(** Truthiness of a variable that holds [null] ([None]) or a string:
    [null] and the empty string are falsy. *)
Definition truthy (x : option string) : bool :=
  match x with
  | None => false
  | Some EmptyString => false
  | Some _ => true
  end.

(** [x !== y] where [y] is a string. *)
Definition strict_neq (x : option string) (y : string) : bool :=
  match x with
  | None => true
  | Some s => negb (String.eqb s y)
  end.

(** [a.sort()]: ascending order of code units; insertion keeps equal
    names in their order, as the stable sort does. *)
Fixpoint insert (x : string) (l : list string) : list string :=
  match l with
  | [] => [x]
  | y :: l' => if String.leb x y then x :: l else y :: insert x l'
  end.

Fixpoint sort (l : list string) : list string :=
  match l with
  | [] => []
  | x :: l' => insert x (sort l')
  end.

End JS.

(** ** Byte sources and the two ways the scripts read them *)

(** A file delivers its bytes in chunks; [None] in the file system stands
    for a file that cannot be opened or whose read fails. *)
Definition source := list string.
Definition filesystem := string -> option source.

Fixpoint contents (src : source) : string :=
  match src with
  | [] => ""
  | chunk :: rest => chunk ++ contents rest
  end.

(** [fs.readFile(path, (err, data) => ...)]: the whole file is read and
    handed over as one buffer; [data.toString()] is its full text. *)
Definition readFile (src : source) : string := contents src.

Module Highland.

(** A file stream hands over no empty chunk. *)
Definition delivered (src : source) : source :=
  filter (fun x => negb (String.eqb x "")) src.

(** [split()] is [splitBy(/\r?\n/)].  Its [drain] appends the chunk to
    the buffered partial line, splits, keeps the last piece as the new
    buffer and pushes the others. *)
Definition drain (buffer x : string) : list string * string :=
  let pieces := JS.splitLines (buffer ++ x) in
  (removelast pieces, JS.pop pieces).

(** [split().take(need)]: chunks are taken from the stream one at a
    time, and only while fewer than [need] lines were pushed; at the end
    of the stream the buffered partial line is pushed.  The result is
    the lines collected and the number of chunks the pipeline took. *)
Fixpoint pull (need : nat) (buffer : string) (chunks : source)
  : list string * nat :=
  match chunks with
  | [] => (firstn need [buffer], 0)
  | x :: rest =>
      let (pieces, buffer') := drain buffer x in
      if Nat.leb need (List.length pieces) then (firstn need pieces, 1)
      else
        let (ls, k) := pull (need - List.length pieces) buffer' rest in
        (pieces ++ ls, S k)
  end.

(** [highland(fileStream).split().take(2)]; a stream that ends without
    a chunk pushes nothing ([buffer] is still [false]). *)
Definition take2 (src : source) : list string * nat :=
  match delivered src with
  | [] => ([], 0)
  | x :: rest => pull 2 "" (x :: rest)
  end.

(** The array [toArray] passes to its callback. *)
Definition toArray (src : source) : list string := fst (take2 src).

(** Chunks the pipeline took from the stream.  The file stream
    underneath reads ahead of them, so more of the file than this has
    been read from disk. *)
Definition pulled (src : source) : nat := snd (take2 src).

End Highland.

(** Characters of the file handed to the script's own code by each way
    of reading: the whole buffer by [readFile], the chunks the pipeline
    took by highland (not counting what the stream read ahead). *)
Definition read_by_readFile (src : source) : nat :=
  String.length (readFile src).

Definition read_by_highland (src : source) : nat :=
  String.length
    (contents (firstn (Highland.pulled src) (Highland.delivered src))).

(** ** State, callbacks and the async drivers *)

(** [latest] holds [null] or a string; [validFiles] is the module-level
    array of the [eachSeries] scripts and, for the [filterSeries] scripts,
    the array [filterSeries] builds for its final callback. *)
Record state : Type := mkState {
  latest : option string;
  validFiles : list string
}.

(** What an iteratee does with its callback [cb]. *)
Inductive signal : Type :=
| Cb0       (* cb()            *)
| CbTrue    (* cb(null, true)  *)
| Silent    (* returns without ever calling cb *)
| Raise.    (* an exception nobody catches *)

Inductive outcome : Type :=
| Finished (st : state)   (* the final callback ran: console.log(validFiles) *)
| Stalled (st : state)    (* the series never advances, nothing is printed *)
| Uncaught (st : state)   (* the process dies on an uncaught exception *)
| NotStarted.             (* readdir failed: logged, nothing else runs *)

Definition state_of (o : outcome) (dflt : state) : state :=
  match o with
  | Finished st | Stalled st | Uncaught st => st
  | NotStarted => dflt
  end.

Definition push (file : string) (st : state) : state :=
  mkState (latest st) (validFiles st ++ [file]).

Module Async.
Section Series.
Variable iteratee : string -> state -> signal * state.

(** [async.eachSeries(coll, iteratee, callback)] *)
Fixpoint eachSeries (coll : list string) (st : state) : outcome :=
  match coll with
  | [] => Finished st
  | file :: rest =>
      let (sig, st') := iteratee file st in
      match sig with
      | Cb0 | CbTrue => eachSeries rest st'
      | Silent => Stalled st'
      | Raise => Uncaught st'
      end
  end.

(** [async.filterSeries(coll, iteratee, callback)]: an item is kept
    when the iteratee calls back with a truthy second argument. *)
Fixpoint filterSeries (coll : list string) (st : state) : outcome :=
  match coll with
  | [] => Finished st
  | file :: rest =>
      let (sig, st') := iteratee file st in
      match sig with
      | Cb0 => filterSeries rest st'
      | CbTrue => filterSeries rest (push file st')
      | Silent => Stalled st'
      | Raise => Uncaught st'
      end
  end.
End Series.
End Async.


(** ** The four scripts *)

Inductive script : Type :=
| EachHighland      (* example-streams.js, first script  *)
| FilterReadFile    (* example-streams.js, second script *)
| EachReadFile      (* example-streams.js, third script  *)
| FilterHighland.   (* unnamed/part_000                  *)

(** [let latest = '20151009_194541'], the same line in each script. *)
Definition baseline : string := "20151009_194541".

Definition initial : state := mkState (Some baseline) [].

Definition gitkeep : string := ".gitkeep".

(** [line.split(' ').pop()] *)
Definition lastField (line : string) : string :=
  JS.pop (JS.split JS.SP line).

(** [if (latest && latest !== previous)] *)
Definition mismatch (latest : option string) (previous : string) : bool :=
  JS.truthy latest && JS.strict_neq latest previous.

(** What reaches the pipe of a file stream that was given a [readable]
    listener (example-streams.js, lines 22-25): nothing.  With that
    listener the stream is not flowing, [resume()] does not change that
    and nobody calls [read()], so the [data] listener and highland get
    neither a chunk nor the end of the stream. *)
Definition listened (fileStream : source) : option source := None.

Section Iteratees.
Variable fs : filesystem.

(** example-streams.js, lines 18-47.  A file stream that fails to open
    makes highland re-emit the error, which no listener handles.  A file
    that opens gets the [readable] and [data] listeners before it is
    given to highland, and [toArray] calls back only with what still
    reaches the pipe. *)
Definition each_highland (file : string) (st : state) : signal * state :=
  match fs file with
  | None => (Raise, st)
  | Some fileStream =>
      match listened fileStream with
      | None => (Silent, st)         (* toArray never calls back *)
      | Some piped =>
          let lines := Highland.toArray piped in
          match nth_error lines 1 with
          | None => (Raise, st)      (* lines[1] is undefined: TypeError *)
          | Some line1 =>
              let previous := lastField line1 in
              if mismatch (latest st) previous then (Cb0, st)
              else
                match nth_error lines 0 with
                | None => (Raise, st)
                | Some line0 =>
                    (Cb0, mkState (Some (lastField line0))
                                  (validFiles st ++ [file]))
                end
          end
      end
  end.

(** example-streams.js, lines 67-87. *)
Definition filter_readFile (file : string) (st : state) : signal * state :=
  if String.eqb file gitkeep then (Cb0, st)
  else
    match fs file with
    | None => (Silent, st)           (* console.log(err); return; *)
    | Some src =>
        let lines := JS.split JS.LF (readFile src) in
        match nth_error lines 1 with
        | None => (Raise, st)        (* lines[1] is undefined: TypeError *)
        | Some line1 =>
            let previous := JS.trim (lastField line1) in
            if mismatch (latest st) previous then (Cb0, st)
            else
              match nth_error lines 0 with
              | None => (Raise, st)
              | Some line0 =>
                  (CbTrue, mkState (Some (JS.trim (lastField line0)))
                                   (validFiles st))
              end
        end
    end.

(** example-streams.js, lines 108-125. *)
Definition each_readFile (file : string) (st : state) : signal * state :=
  match fs file with
  | None => (Silent, st)             (* console.log(err); return; *)
  | Some src =>
      let lines := JS.split JS.LF (readFile src) in
      match nth_error lines 1 with
      | None => (Raise, st)          (* lines[1] is undefined: TypeError *)
      | Some line1 =>
          let previous := JS.trim (lastField line1) in
          if mismatch (latest st) previous then (Silent, st)  (* return false; *)
          else
            match nth_error lines 0 with
            | None => (Raise, st)
            | Some line0 =>
                (Cb0, mkState (Some (JS.trim (lastField line0)))
                              (validFiles st ++ [file]))
            end
      end
  end.

(** unnamed/part_000, lines 17-48. *)
Definition filter_highland (file : string) (st : state) : signal * state :=
  if String.eqb file gitkeep then (Cb0, st)
  else
    match fs file with
    | None => (Raise, st)
    | Some fileStream =>
        let lines := Highland.toArray fileStream in
        match nth_error lines 1 with
        | None => (Raise, st)        (* lines[1] is undefined: TypeError *)
        | Some line1 =>
            let previous := lastField line1 in
            if mismatch (latest st) previous then (Cb0, st)
            else
              match nth_error lines 0 with
              | None => (Raise, st)
              | Some line0 =>
                  (CbTrue, mkState (Some (lastField line0)) (validFiles st))
              end
        end
    end.

(** The series each script starts on the sorted names. *)
Definition run (v : script) (files : list string) (st : state) : outcome :=
  match v with
  | EachHighland => Async.eachSeries each_highland files st
  | FilterReadFile => Async.filterSeries filter_readFile files st
  | EachReadFile => Async.eachSeries each_readFile files st
  | FilterHighland => Async.filterSeries filter_highland files st
  end.

(** [fs.readdir('./incrementals', (e, files) => ...)]; [None] is the
    error [e]. *)
Definition main (v : script) (listing : option (list string)) : outcome :=
  match listing with
  | None => NotStarted
  | Some files => run v (JS.sort files) initial
  end.

End Iteratees.

(** ** The highland snippet of the blog post *)

(** [let latest = '20160128_192500'], streams.md, lines 24 and 82. *)
Definition blog_baseline : string := "20160128_192500".

Definition blog_initial : state := mkState (Some blog_baseline) [].

(** streams.md, lines 87-105: the pipeline and callback of the first
    script, without listeners on the file stream. *)
Definition blog_each_highland (fs : filesystem) (file : string) (st : state)
  : signal * state :=
  match fs file with
  | None => (Raise, st)
  | Some fileStream =>
      let lines := Highland.toArray fileStream in
      match nth_error lines 1 with
      | None => (Raise, st)          (* lines[1] is undefined: TypeError *)
      | Some line1 =>
          let previous := lastField line1 in
          if mismatch (latest st) previous then (Cb0, st)
          else
            match nth_error lines 0 with
            | None => (Raise, st)
            | Some line0 =>
                (Cb0, mkState (Some (lastField line0))
                              (validFiles st ++ [file]))
            end
      end
  end.

(** streams.md, lines 86-109.  The snippet does not look at the error of
    [readdir]: without a listing, [files.sort()] throws. *)
Definition blog_main (fs : filesystem) (listing : option (list string))
  : outcome :=
  match listing with
  | None => Uncaught blog_initial
  | Some files =>
      Async.eachSeries (blog_each_highland fs) (JS.sort files) blog_initial
  end.

(** ** Notions the claims are stated with *)

(** Whether a script reads through highland or through [fs.readFile]. *)
Definition streams (v : script) : bool :=
  match v with
  | EachHighland | FilterHighland => true
  | FilterReadFile | EachReadFile => false
  end.

(** The script whose file streams carry the [readable] listener. *)
Definition listens (v : script) : bool :=
  match v with
  | EachHighland => true
  | FilterReadFile | EachReadFile | FilterHighland => false
  end.

(** The lines the callback of a script looks at; the callback of the
    first script is handed none. *)
Definition lines_of (v : script) (src : source) : list string :=
  if streams v then
    (if listens v
     then match listened src with
          | None => []
          | Some piped => Highland.toArray piped
          end
     else Highland.toArray src)
  else JS.split JS.LF (readFile src).

(** The token a script takes from a header line. *)
Definition token (v : script) (line : string) : string :=
  if streams v then lastField line else JS.trim (lastField line).

(** The placeholder the [filterSeries] scripts pass over. *)
Definition skips (v : script) (file : string) : bool :=
  match v with
  | FilterReadFile | FilterHighland => String.eqb file gitkeep
  | EachHighland | EachReadFile => false
  end.

(** The pair (currentToken, previousToken) the callback of a script
    takes from a file stream: line 1 gives the current token, line 2
    the previous one. *)
Definition header_of (v : script) (src : source) : option (string * string) :=
  match nth_error (lines_of v src) 0, nth_error (lines_of v src) 1 with
  | Some line0, Some line1 => Some (token v line0, token v line1)
  | _, _ => None
  end.

(** The pair the callback of a script takes from a file of the
    directory; there is none for a file that cannot be read or has
    fewer than two lines, and none at all in the first script. *)
Definition header (v : script) (fs : filesystem) (file : string)
  : option (string * string) :=
  match fs file with
  | None => None
  | Some src => header_of v src
  end.

(** A file is accepted when processing it appends it to [validFiles]. *)
Definition accepted (v : script) (fs : filesystem) (file : string)
  (st : state) : Prop :=
  validFiles (state_of (run fs v [file] st) st) = validFiles st ++ [file].

(** [latest] after a file was processed. *)
Definition latest_after (v : script) (fs : filesystem) (file : string)
  (st : state) : option string :=
  latest (state_of (run fs v [file] st) st).

(** The latest token is unset: [null] (or absent), or the empty string,
    the values the test [latest && ...] takes for false. *)
Definition unset (l : option string) : Prop :=
  l = None \/ l = Some "".

(** Files that chain from [b]: each previous token is the current token
    of the file before, the first previous token is [b]. *)
Fixpoint chain (b : string) (hs : list (string * string)) : Prop :=
  match hs with
  | [] => True
  | (cur, prev) :: tl => prev = b /\ chain cur tl
  end.

Definition final_token (b : string) (hs : list (string * string)) : string :=
  last (map fst hs) b.

(** Names in the order [sort] leaves them. *)
Definition sorted (files : list string) : Prop :=
  Sorted (fun a b => String.leb a b = true) files.

(** The run of a script whose [latest] starts at [b]; [main] is this run
    at the hardcoded [baseline]. *)
Definition validate (fs : filesystem) (v : script) (b : string)
  (files : list string) : outcome :=
  run fs v (JS.sort files) (mkState (Some b) []).

(** The scripts whose mismatch branch calls [cb]: all but the third,
    whose branch is [return false]. *)
Definition goes_on (v : script) : bool :=
  match v with
  | EachReadFile => false
  | EachHighland | FilterReadFile | FilterHighland => true
  end.

(** The caller is handed the list [l]: the final callback ran and
    [validFiles] was [l]. *)
Definition delivers (o : outcome) (l : list string) : Prop :=
  exists st, o = Finished st /\ validFiles st = l.

(** Every character of [s] is white space, and none is. *)
Fixpoint all_white (s : string) : bool :=
  match s with
  | EmptyString => true
  | String c s' => JS.is_white c && all_white s'
  end.

Fixpoint no_white (s : string) : bool :=
  match s with
  | EmptyString => true
  | String c s' => negb (JS.is_white c) && no_white s'
  end.

(** The substring after the last space of a line, in the words of the
    header format (the whole line when it has no space). *)
Fixpoint after_last_space (line : string) : string :=
  match line with
  | EmptyString => ""
  | String c rest =>
      if JS.occurs JS.SP rest then after_last_space rest
      else if Ascii.eqb c JS.SP then rest
      else line
  end.

(** ** Sample directories *)

(** The two header lines of an incremental file, with line end [eol]. *)
Definition headerText (cur prev eol : string) : string :=
  ("-- Increment timestamp: " ++ cur ++ eol
   ++ "-- Previous timestamp: " ++ prev ++ eol)%string.

(** A directory given by its readable entries; any other name fails to
    open. *)
Fixpoint dir (entries : list (string * source)) : filesystem :=
  fun name =>
    match entries with
    | [] => None
    | (n, src) :: rest => if String.eqb name n then Some src else dir rest name
    end.

Definition day10 : source :=
  [headerText "20151010_120000" "20151009_194541" JS.nl;
   ("INSERT INTO t VALUES (1);" ++ JS.nl)%string].

Definition day11 : source :=
  [headerText "20151011_120000" "20151010_120000" JS.nl].

(** Chains from nothing in the directory. *)
Definition stray : source :=
  [headerText "20151013_000000" "99999999_999999" JS.nl].

(** [day10] with CRLF line ends. *)
Definition day10_crlf : source :=
  [headerText "20151010_120000" "20151009_194541" JS.crlf].



(** The first line ends in a space: its last field is empty. *)
Definition emptyCurrent : source :=
  [("-- Increment timestamp: " ++ JS.nl
    ++ "-- Previous timestamp: 20151009_194541" ++ JS.nl)%string].

Definition chained : filesystem :=
  dir [("a.sql", day10); ("b.sql", day11)].

Definition strayFirst : filesystem :=
  dir [("a.sql", stray); ("b.sql", day10)].




(** [b.sql] is listed but cannot be read. *)
Definition unreadableSecond : filesystem :=
  dir [("a.sql", day10); ("c.sql", day11)].

Definition crlfOnly : filesystem := dir [("a.sql", day10_crlf)].

Definition lfOnly : filesystem := dir [("a.sql", day10)].

(** An empty placeholder next to a first incremental file. *)
Definition withPlaceholder : filesystem :=
  dir [(".gitkeep", []); ("a.sql", day10)].

Definition emptyThenStray : filesystem :=
  dir [("a.sql", emptyCurrent); ("b.sql", stray)].

(** Two header lines in a first chunk, anything in a second chunk. *)
Definition withFiller (filler : string) : source :=
  [headerText "20151010_120000" "20151009_194541" JS.nl; filler].

(** ** Notions for the further properties *)

(** What one file does to a series: it ends it with an outcome, or the
    series goes on from a state. *)
Inductive step_result : Type :=
| Halt (o : outcome)
| Continue (st : state).

(** One file, for any of the four scripts, told by what the script takes
    from the file: nothing when it passes the file over, an error when it
    cannot read it, no callback or a missing line, or the two tokens. *)
Definition step (fs : filesystem) (v : script) (file : string) (st : state)
  : step_result :=
  if skips v file then Continue st
  else
    match fs file with
    | None => Halt (if streams v then Uncaught st else Stalled st)
    | Some src =>
        match header_of v src with
        | None => Halt (if listens v then Stalled st else Uncaught st)
        | Some (cur, prev) =>
            if mismatch (latest st) prev
            then (if goes_on v then Continue st else Halt (Stalled st))
            else Continue (mkState (Some cur) (validFiles st ++ [file]))
        end
    end.

(** Header pairs that link up from the latest token [l]: each previous
    token is the latest token at that point, unless that one is empty. *)
Fixpoint linked (l : string) (hs : list (string * string)) : Prop :=
  match hs with
  | [] => True
  | (cur, prev) :: tl => (l = "" \/ prev = l) /\ linked cur tl
  end.

(** [kept] is [files] with some names left out, the order kept. *)
Inductive subseq : list string -> list string -> Prop :=
| subseq_nil : subseq [] []
| subseq_drop (x : string) (kept files : list string) :
    subseq kept files -> subseq kept (x :: files)
| subseq_keep (x : string) (kept files : list string) :
    subseq kept files -> subseq (x :: kept) (x :: files).

(** How often the code unit [c] occurs in [s]. *)
Fixpoint count (c : ascii) (s : string) : nat :=
  match s with
  | EmptyString => 0
  | String a s' => (if Ascii.eqb a c then 1 else 0) + count c s'
  end.

(** The names a script opens: the listing without the placeholder, for
    the scripts that pass it over. *)
Definition opened (v : script) (files : list string) : list string :=
  filter (fun f => negb (skips v f)) files.

(** Every name is below or equal to every later one. *)
Definition ascending (l : list string) : Prop :=
  StronglySorted (fun a b => String.leb a b = true) l.

(** [day10] with CRLF line ends, cut between a carriage return and its
    line feed. *)
Definition day10_crlf_cut : source :=
  [("-- Increment timestamp: 20151010_120000" ++ String JS.CR "")%string;
   (JS.nl ++ "-- Previous timestamp: 20151009_194541" ++ JS.crlf)%string].

(** * Facts *)

(** ** Splitting, popping, trimming, sorting *)

Example split_two_lines :
  JS.split JS.LF ("a b" ++ JS.nl ++ "c d" ++ JS.nl) = ["a b"; "c d"; ""].
Proof. reflexivity. Qed.

Example lastField_header :
  lastField "-- Previous timestamp: 20160128_192500" = "20160128_192500".
Proof. reflexivity. Qed.

Example trim_cr : JS.trim ("  x y" ++ String JS.CR "") = "x y".
Proof. reflexivity. Qed.

Example sort_names : JS.sort ["b"; ".gitkeep"; "a"] = [".gitkeep"; "a"; "b"].
Proof. reflexivity. Qed.

Lemma split_nonempty (c : ascii) (s : string) : JS.split c s <> [].
Proof.
  destruct s as [|a s]; simpl; [discriminate|].
  destruct (Ascii.eqb a c); [discriminate|].
  destruct (JS.split c s); discriminate.
Qed.

Lemma split_cons_sep (c : ascii) (s : string) :
  JS.split c (String c s) = "" :: JS.split c s.
Proof. simpl. now rewrite Ascii.eqb_refl. Qed.

Lemma split_cons_other (c a : ascii) (s : string) :
  Ascii.eqb a c = false ->
  exists p ps, JS.split c s = p :: ps /\
               JS.split c (String a s) = String a p :: ps.
Proof.
  intros Hac. simpl. rewrite Hac.
  destruct (JS.split c s) as [|p ps] eqn:E.
  - now apply split_nonempty in E.
  - now exists p, ps.
Qed.

Lemma removelast_cons {A} (x : A) (l : list A) :
  l <> [] -> removelast (x :: l) = x :: removelast l.
Proof. destruct l; [congruence | reflexivity]. Qed.

Lemma last_cons {A} (x d : A) (l : list A) :
  l <> [] -> last (x :: l) d = last l d.
Proof. destruct l; [congruence | reflexivity]. Qed.

(** Splitting a text that continues: the last piece so far is the only
    one the continuation can still change. *)
Lemma split_app (c : ascii) (a b : string) :
  JS.split c (a ++ b)
  = removelast (JS.split c a) ++ JS.split c (JS.pop (JS.split c a) ++ b).
Proof.
  unfold JS.pop. induction a as [|x a IH].
  - reflexivity.
  - destruct (Ascii.eqb x c) eqn:Hx.
    + apply Ascii.eqb_eq in Hx; subst x. cbn [append].
      rewrite !split_cons_sep.
      rewrite removelast_cons, last_cons by apply split_nonempty.
      cbn [app]. now rewrite IH.
    + cbn [append].
      destruct (split_cons_other c x (a ++ b) Hx) as (p & ps & E1 & E2).
      destruct (split_cons_other c x a Hx) as (q & qs & F1 & F2).
      rewrite E2, F2. rewrite IH, F1 in E1.
      destruct qs as [|q' qs].
      * cbn [removelast last app] in E1 |- *.
        destruct (split_cons_other c x (q ++ b) Hx) as (r & rs & G1 & G2).
        cbn [append]. rewrite G2. rewrite G1 in E1.
        now inversion E1.
      * rewrite removelast_cons in E1 by discriminate.
        rewrite last_cons in E1 by discriminate.
        rewrite removelast_cons by discriminate.
        rewrite last_cons by discriminate.
        cbn [app] in E1 |- *. now inversion E1.
Qed.

Lemma split_none (c : ascii) (s : string) :
  JS.occurs c s = false -> JS.split c s = [s].
Proof.
  induction s as [|a s IH]; simpl; [reflexivity|].
  intros H. apply orb_false_iff in H as [Ha Hs].
  rewrite Ha, (IH Hs). reflexivity.
Qed.

Lemma split_some (c : ascii) (s : string) :
  JS.occurs c s = true -> 2 <= List.length (JS.split c s).
Proof.
  induction s as [|a s IH]; simpl; [discriminate|].
  destruct (Ascii.eqb a c); simpl.
  - intros _. pose proof (split_nonempty c s).
    destruct (JS.split c s); [congruence | simpl; lia].
  - intros H. specialize (IH H).
    destruct (JS.split c s); simpl in *; lia.
Qed.

Lemma pop_split_clean (c : ascii) (s : string) :
  JS.occurs c (JS.pop (JS.split c s)) = false.
Proof.
  unfold JS.pop. induction s as [|a s IH]; [reflexivity|].
  destruct (Ascii.eqb a c) eqn:Ha.
  - simpl. rewrite Ha. rewrite last_cons by apply split_nonempty. exact IH.
  - destruct (split_cons_other c a s Ha) as (p & ps & E1 & E2).
    rewrite E2. rewrite E1 in IH. destruct ps as [|p' ps].
    + simpl in *. now rewrite Ha.
    + rewrite last_cons in * by discriminate. exact IH.
Qed.

Lemma append_assoc (a b c : string) :
  ((a ++ b) ++ c = a ++ (b ++ c))%string.
Proof. induction a as [|x a IH]; simpl; [reflexivity | now rewrite IH]. Qed.

Lemma append_nil_r (a : string) : (a ++ "")%string = a.
Proof. induction a as [|x a IH]; simpl; [reflexivity | now rewrite IH]. Qed.

Lemma length_append (a b : string) :
  String.length (a ++ b) = String.length a + String.length b.
Proof. induction a as [|x a IH]; simpl; [reflexivity | now rewrite IH]. Qed.

Lemma contents_app (p q : source) :
  contents (p ++ q) = (contents p ++ contents q)%string.
Proof.
  induction p as [|x p IH]; simpl; [reflexivity|].
  now rewrite IH, append_assoc.
Qed.

(** ** The highland pipeline *)

Section HighlandFacts.
Import Highland.

Lemma removelast_length {A} (l : list A) :
  List.length (removelast l) = List.length l - 1.
Proof.
  induction l as [|x l IH]; [reflexivity|].
  destruct l as [|y l]; [reflexivity|].
  change (removelast (x :: y :: l)) with (x :: removelast (y :: l)).
  simpl List.length in *. lia.
Qed.

Lemma splitLines_removelast (s : string) :
  removelast (JS.splitLines s)
  = map JS.chomp (removelast (JS.split JS.LF s)).
Proof. unfold JS.splitLines. apply removelast_last. Qed.

Lemma splitLines_pop (s : string) :
  JS.pop (JS.splitLines s) = JS.pop (JS.split JS.LF s).
Proof. unfold JS.splitLines, JS.pop. apply last_last. Qed.

Lemma splitLines_none (s : string) :
  JS.occurs JS.LF s = false -> JS.splitLines s = [s].
Proof. intros H. unfold JS.splitLines. now rewrite split_none. Qed.

Lemma last_app_right {A} (l1 l2 : list A) (d : A) :
  l2 <> [] -> last (l1 ++ l2) d = last l2 d.
Proof.
  intros H. induction l1 as [|x l1 IH]; [reflexivity|].
  cbn [app]. rewrite last_cons; [exact IH|].
  destruct l1; simpl; [exact H | discriminate].
Qed.

(** Cutting a text that continues: the last piece so far is the only one
    the continuation can still change, also when a carriage return ends
    it and the line feed comes next. *)
Lemma splitLines_app (a b : string) :
  JS.splitLines (a ++ b)
  = removelast (JS.splitLines a)
    ++ JS.splitLines (JS.pop (JS.splitLines a) ++ b).
Proof.
  rewrite splitLines_removelast, splitLines_pop.
  unfold JS.splitLines at 1 2. rewrite (split_app JS.LF a b).
  set (P := removelast (JS.split JS.LF a)).
  set (Q := JS.split JS.LF (JS.pop (JS.split JS.LF a) ++ b)).
  assert (HQ : Q <> []) by apply split_nonempty.
  rewrite removelast_app, last_app_right, map_app by exact HQ.
  now rewrite <- app_assoc.
Qed.

(** The lines the pipeline collects are the first pieces of the text
    still to come, whatever the chunking. *)
Lemma pull_lines (chunks : source) : forall need buffer,
  JS.occurs JS.LF buffer = false ->
  fst (pull need buffer chunks)
  = firstn need (JS.splitLines (buffer ++ contents chunks)).
Proof.
  induction chunks as [|x rest IH]; intros need buffer Hb.
  - simpl. now rewrite append_nil_r, splitLines_none.
  - cbn [pull drain contents].
    rewrite <- append_assoc, (splitLines_app (buffer ++ x) (contents rest)).
    set (pieces := removelast (JS.splitLines (buffer ++ x))).
    set (buffer' := JS.pop (JS.splitLines (buffer ++ x))).
    assert (Hb' : JS.occurs JS.LF buffer' = false).
    { unfold buffer'. rewrite splitLines_pop. apply pop_split_clean. }
    destruct (Nat.leb need (List.length pieces)) eqn:Hn.
    + apply Nat.leb_le in Hn. cbn [fst].
      rewrite firstn_app.
      replace (need - List.length pieces) with 0 by lia.
      now rewrite firstn_O, app_nil_r.
    + apply Nat.leb_gt in Hn.
      specialize (IH (need - List.length pieces) buffer' Hb').
      destruct (pull (need - List.length pieces) buffer' rest) as [ls k].
      cbn [fst] in IH |- *. rewrite IH.
      rewrite firstn_app, (@firstn_all2 _ need pieces) by lia.
      reflexivity.
Qed.

Lemma contents_delivered (src : source) :
  contents (delivered src) = contents src.
Proof.
  induction src as [|x src IH]; [reflexivity|].
  cbn [delivered filter contents]. fold (delivered src).
  destruct (String.eqb_spec x "") as [->|Hx]; cbn [negb].
  - exact IH.
  - cbn [contents]. now rewrite IH.
Qed.

(** [toArray] sees the first two pieces of the file's text. *)
Lemma toArray_lines (src : source) :
  delivered src <> [] ->
  toArray src = firstn 2 (JS.splitLines (contents src)).
Proof.
  intros Hs. unfold toArray, take2. rewrite <- (contents_delivered src).
  destruct (delivered src) as [|x rest]; [congruence|].
  now rewrite pull_lines.
Qed.


End HighlandFacts.

(** ** Lines and tokens *)

Lemma split_line (c : ascii) (l s : string) :
  JS.occurs c l = false ->
  JS.split c (l ++ String c s) = l :: JS.split c s.
Proof.
  induction l as [|a l IH]; intros H.
  - apply split_cons_sep.
  - simpl in H. apply orb_false_iff in H as [Ha Hl].
    cbn [append JS.split]. rewrite Ha, (IH Hl). reflexivity.
Qed.

Lemma occurs_app (c : ascii) (a b : string) :
  JS.occurs c (a ++ b) = JS.occurs c a || JS.occurs c b.
Proof.
  induction a as [|x a IH]; simpl; [reflexivity|].
  now rewrite IH, orb_assoc.
Qed.

Lemma last_app_single {A} (l : list A) (x d : A) : last (l ++ [x]) d = x.
Proof. apply last_last. Qed.

Lemma last_app_nonempty {A} (l1 l2 : list A) (d : A) :
  l2 <> [] -> last (l1 ++ l2) d = last l2 d.
Proof.
  intros H. induction l1 as [|x l1 IH]; [reflexivity|].
  cbn [app]. rewrite last_cons; [exact IH|].
  destruct l1; simpl; [exact H | discriminate].
Qed.

(** Only what follows the last space counts. *)
Lemma lastField_after_space (a b : string) :
  lastField (a ++ String JS.SP b) = lastField b.
Proof.
  unfold lastField, JS.pop.
  rewrite split_app, split_line by apply pop_split_clean.
  rewrite last_app_nonempty by discriminate.
  apply last_cons, split_nonempty.
Qed.

Lemma lastField_no_space (s : string) :
  JS.occurs JS.SP s = false -> lastField s = s.
Proof. intros H. unfold lastField. now rewrite split_none. Qed.

(** Characters other than the space stay attached to the last field. *)
Lemma lastField_app (l w : string) :
  JS.occurs JS.SP w = false ->
  lastField (l ++ w) = (lastField l ++ w)%string.
Proof.
  intros Hw. unfold lastField at 1. rewrite split_app.
  fold (lastField l). rewrite (split_none JS.SP (lastField l ++ w)).
  - unfold JS.pop. apply last_app_single.
  - rewrite occurs_app, Hw. unfold lastField. now rewrite pop_split_clean.
Qed.

(** [split(' ').pop()] is the substring after the last space. *)
Lemma lastField_spec (line : string) : lastField line = after_last_space line.
Proof.
  induction line as [|c rest IH]; [reflexivity|].
  cbn [after_last_space].
  destruct (JS.occurs JS.SP rest) eqn:Hr.
  - rewrite <- IH. unfold lastField, JS.pop in *.
    pose proof (split_some _ _ Hr) as Hlen.
    destruct (Ascii.eqb c JS.SP) eqn:Hc.
    + simpl. rewrite Hc. apply last_cons, split_nonempty.
    + destruct (split_cons_other _ _ rest Hc) as (p & ps & E1 & E2).
      rewrite E2, E1. rewrite E1 in Hlen.
      destruct ps; [simpl in Hlen; lia | reflexivity].
  - destruct (Ascii.eqb c JS.SP) eqn:Hc.
    + apply Ascii.eqb_eq in Hc; subst c.
      change (String JS.SP rest) with ("" ++ String JS.SP rest)%string.
      rewrite lastField_after_space. now apply lastField_no_space.
    + apply lastField_no_space. simpl. now rewrite Hc, Hr.
Qed.

(** ** Trimming *)

Lemma trimStart_white (w : string) : all_white w = true -> JS.trimStart w = "".
Proof.
  induction w as [|c w IH]; simpl; [reflexivity|].
  intros H. apply andb_true_iff in H as [Hc Hw]. now rewrite Hc, IH.
Qed.

Lemma trimEnd_white (w : string) : all_white w = true -> JS.trimEnd w = "".
Proof.
  induction w as [|c w IH]; simpl; [reflexivity|].
  intros H. apply andb_true_iff in H as [Hc Hw]. now rewrite IH, Hc.
Qed.

Lemma trimStart_app_white (w s : string) :
  all_white w = true -> JS.trimStart (w ++ s) = JS.trimStart s.
Proof.
  induction w as [|c w IH]; simpl; [reflexivity|].
  intros H. apply andb_true_iff in H as [Hc Hw]. now rewrite Hc, IH.
Qed.

Lemma trimEnd_app_white (s w : string) :
  all_white w = true -> JS.trimEnd (s ++ w) = JS.trimEnd s.
Proof.
  intros Hw. induction s as [|c s IH]; simpl.
  - now apply trimEnd_white.
  - now rewrite IH.
Qed.

(** White space at the end of a text does not change what [trim] gives. *)
Lemma trim_app_white (s w : string) :
  all_white w = true -> JS.trim (s ++ w) = JS.trim s.
Proof.
  intros Hw. unfold JS.trim. induction s as [|c s IH]; simpl.
  - now rewrite trimStart_white.
  - destruct (JS.is_white c); [exact IH|].
    change (String c (s ++ w)) with (String c s ++ w)%string.
    now apply trimEnd_app_white.
Qed.

Lemma trimEnd_no_white (t : string) : no_white t = true -> JS.trimEnd t = t.
Proof.
  induction t as [|c t IH]; simpl; [reflexivity|].
  intros H. apply andb_true_iff in H as [Hc Ht].
  rewrite (IH Ht). apply negb_true_iff in Hc. rewrite Hc.
  now destruct t.
Qed.

Lemma trim_no_white (t : string) : no_white t = true -> JS.trim t = t.
Proof.
  intros H. unfold JS.trim.
  replace (JS.trimStart t) with t; [now apply trimEnd_no_white|].
  destruct t as [|c t]; [reflexivity|]. simpl in *.
  apply andb_true_iff in H as [Hc _]. apply negb_true_iff in Hc.
  now rewrite Hc.
Qed.

(** A token without white space comes out bare when white space is put
    around it. *)
Lemma trim_bare (w1 t w2 : string) :
  all_white w1 = true -> no_white t = true -> all_white w2 = true ->
  JS.trim (w1 ++ t ++ w2) = t.
Proof.
  intros H1 Ht H2.
  unfold JS.trim. rewrite trimStart_app_white by exact H1.
  fold (JS.trim (t ++ w2)). rewrite trim_app_white by exact H2.
  now apply trim_no_white.
Qed.

Lemma no_white_no_space (t : string) :
  no_white t = true -> JS.occurs JS.SP t = false.
Proof.
  induction t as [|c t IH]; simpl; [reflexivity|].
  intros H. apply andb_true_iff in H as [Hc Ht]. rewrite (IH Ht), orb_false_r.
  destruct (Ascii.eqb c JS.SP) eqn:E; [|reflexivity].
  apply Ascii.eqb_eq in E; subst c. discriminate.
Qed.

(** ** Sorting *)

Lemma sort_sorted (files : list string) : sorted files -> JS.sort files = files.
Proof.
  induction 1 as [|a l Hl IH Hd]; [reflexivity|].
  simpl. rewrite IH. destruct Hd as [|b l Hab]; [reflexivity|].
  simpl. now rewrite Hab.
Qed.

(** ** One step of a series *)

Lemma mismatch_false_iff (l : option string) (p : string) :
  mismatch l p = false <-> unset l \/ l = Some p.
Proof.
  unfold mismatch, unset.
  destruct l as [[|c s]|]; cbn [JS.truthy JS.strict_neq andb].
  - split; auto.
  - rewrite negb_false_iff, String.eqb_eq. split.
    + intros ->. now right.
    + intros [[H|H]|H]; congruence.
  - split; auto.
Qed.

Lemma mismatch_same (p : string) : mismatch (Some p) p = false.
Proof. apply mismatch_false_iff. now right. Qed.

(** What a script does with a file whose two header lines it can read. *)
Lemma run_cons_header (fs : filesystem) (v : script) (file : string)
  (rest : list string) (st : state) (cur prev : string) :
  skips v file = false ->
  header v fs file = Some (cur, prev) ->
  run fs v (file :: rest) st =
    if mismatch (latest st) prev
    then (if goes_on v then run fs v rest st else Stalled st)
    else run fs v rest (mkState (Some cur) (validFiles st ++ [file])).
Proof.
  unfold header, header_of, lines_of, token. intros Hs H.
  destruct (fs file) as [src|] eqn:Hf; [|discriminate].
  destruct v; cbn [streams skips goes_on listens listened] in *;
    destruct (nth_error _ 0) as [line0|] eqn:H0; try discriminate;
    destruct (nth_error _ 1) as [line1|] eqn:H1; try discriminate;
    injection H as <- <-;
    cbn [run Async.eachSeries Async.filterSeries];
    unfold filter_readFile, each_readFile, filter_highland;
    rewrite ?Hs, Hf, H1, H0;
    destruct (mismatch (latest st) _); reflexivity.
Qed.

(** The placeholder is passed over. *)
Lemma run_cons_skip (fs : filesystem) (v : script) (file : string)
  (rest : list string) (st : state) :
  skips v file = true -> run fs v (file :: rest) st = run fs v rest st.
Proof.
  destruct v; cbn [skips]; intros Hs; try discriminate;
    cbn [run Async.filterSeries];
    unfold filter_readFile, filter_highland; now rewrite Hs.
Qed.

(** A file that cannot be read. *)
Lemma run_cons_unreadable (fs : filesystem) (v : script) (file : string)
  (rest : list string) (st : state) :
  fs file = None ->
  skips v file = false ->
  run fs v (file :: rest) st = if streams v then Uncaught st else Stalled st.
Proof.
  intros Hf Hs.
  destruct v; cbn [skips streams] in *;
    cbn [run Async.eachSeries Async.filterSeries];
    unfold each_highland, filter_readFile, each_readFile, filter_highland;
    now rewrite ?Hs, Hf.
Qed.


(** A file the first script can open: its callback never runs. *)
Lemma run_cons_listened (fs : filesystem) (file : string)
  (rest : list string) (st : state) (src : source) :
  fs file = Some src ->
  run fs EachHighland (file :: rest) st = Stalled st.
Proof.
  intros Hf. cbn [run Async.eachSeries]. unfold each_highland.
  now rewrite Hf.
Qed.


(** A series that got through a prefix goes on from the state reached. *)
Lemma run_app (fs : filesystem) (v : script) (pre : list string) :
  forall (l : list string) (st0 st : state),
  run fs v pre st0 = Finished st ->
  run fs v (pre ++ l) st0 = run fs v l st.
Proof.
  induction pre as [|f pre IH]; intros l st0 st H.
  - destruct v; simpl in H; injection H as <-; reflexivity.
  - destruct v; cbn [run app Async.eachSeries Async.filterSeries] in *;
      match goal with
      | |- context [?it fs f st0] => destruct (it fs f st0) as [[] st1]
      end; try discriminate;
      first [ apply (IH l _ _ H) ].
Qed.

(** * The claims *)

Lemma last_shift {A} (l : list A) : forall x d : A, last (x :: l) d = last l x.
Proof.
  induction l as [|y l IH]; intros x d; [reflexivity|].
  change (last (x :: y :: l) d) with (last (y :: l) d).
  now rewrite !IH.
Qed.

Lemma final_token_cons (b cur prev : string) (hs : list (string * string)) :
  final_token b ((cur, prev) :: hs) = final_token cur hs.
Proof. unfold final_token. cbn [map fst]. apply last_shift. Qed.

Lemma chain_run (fs : filesystem) (v : script) :
  forall (files : list string) (hs : list (string * string))
         (b : string) (acc : list string),
  Forall (fun f => skips v f = false) files ->
  Forall2 (fun f h => header v fs f = Some h) files hs ->
  chain b hs ->
  run fs v files (mkState (Some b) acc)
  = Finished (mkState (Some (final_token b hs)) (acc ++ files)).
Proof.
  induction files as [|f files IH]; intros hs b acc Hs Hh Hc.
  - inversion Hh; subst. rewrite app_nil_r. now destruct v.
  - inversion Hh as [|f' [cur prev] fs' hs' Hf Hrest]; subst.
    inversion Hs as [|f' fs' Hsf Hsrest]; subst.
    destruct Hc as [-> Hc].
    rewrite (run_cons_header fs v f files _ cur b Hsf Hf).
    cbn [latest validFiles]. rewrite mismatch_same.
    rewrite (IH hs' cur (acc ++ [f]) Hsrest Hrest Hc).
    now rewrite <- app_assoc, final_token_cons.
Qed.

(** In the scripts whose callback runs, a chain is accepted whole: when
    the files, in sorted name order and none of them passed over, have
    header pairs that chain from [b], the run finishes with exactly
    these files accepted and with the last current token. *)
Lemma chain_validated (fs : filesystem) (v : script) (b : string)
  (files : list string) (hs : list (string * string)) :
  sorted files ->
  Forall (fun f => skips v f = false) files ->
  Forall2 (fun f h => header v fs f = Some h) files hs ->
  chain b hs ->
  validate fs v b files
  = Finished (mkState (Some (final_token b hs)) files).
Proof.
  intros Hsorted Hs Hh Hc. unfold validate.
  rewrite (sort_sorted files Hsorted).
  exact (chain_run fs v files hs b [] Hs Hh Hc).
Qed.


Lemma main_is_validate (fs : filesystem) (v : script) (files : list string) :
  main fs v (Some files) = validate fs v baseline files.
Proof. reflexivity. Qed.

Lemma run_nil (fs : filesystem) (v : script) (st : state) :
  run fs v [] st = Finished st.
Proof. now destruct v. Qed.

Lemma app_single_neq {A} (l : list A) (x : A) : l <> l ++ [x].
Proof.
  intros H. apply (f_equal (@List.length A)) in H.
  rewrite length_app in H. simpl in H. lia.
Qed.

(** The state a file with a readable header leaves behind. *)
Lemma state_after_header (fs : filesystem) (v : script) (file : string)
  (st : state) (cur prev : string) :
  skips v file = false ->
  header v fs file = Some (cur, prev) ->
  state_of (run fs v [file] st) st =
    if mismatch (latest st) prev then st
    else mkState (Some cur) (validFiles st ++ [file]).
Proof.
  intros Hs H. rewrite (run_cons_header fs v file [] st cur prev Hs H).
  rewrite !run_nil. destruct (mismatch (latest st) prev); [|reflexivity].
  now destruct (goes_on v).
Qed.

Lemma accepted_iff_no_mismatch (fs : filesystem) (v : script)
  (file : string) (st : state) (cur prev : string) :
  skips v file = false ->
  header v fs file = Some (cur, prev) ->
  (accepted v fs file st <-> mismatch (latest st) prev = false) /\
  (accepted v fs file st -> latest_after v fs file st = Some cur).
Proof.
  intros Hs H. unfold accepted, latest_after.
  rewrite (state_after_header fs v file st cur prev Hs H).
  destruct (mismatch (latest st) prev); cbn [validFiles latest].
  - split; [split|]; intros E; try discriminate;
      now apply app_single_neq in E.
  - repeat split; reflexivity.
Qed.

(** C2 (match rule), as the scripts have it.  In every script, a file
    that is processed (not passed over, and with a header that reaches
    the script's callback) is accepted, that is appended to the result,
    if and only if the latest token is unset or equals the file's
    previous token; when it is accepted the latest token becomes the
    file's current token.  Unset is what the test [latest && ...] takes
    for unset: null (or absent), and the empty string as well.  The
    first script, whose callback is never handed a header, is not
    spoken of. *)
Theorem C2_accepted_iff_unset_or_match (fs : filesystem) (v : script)
  (file : string) (st : state) (cur prev : string) :
  skips v file = false ->
  header v fs file = Some (cur, prev) ->
  (accepted v fs file st <-> unset (latest st) \/ latest st = Some prev) /\
  (accepted v fs file st -> latest_after v fs file st = Some cur).
Proof.
  intros Hs H. rewrite <- mismatch_false_iff.
  exact (accepted_iff_no_mismatch fs v file st cur prev Hs H).
Qed.

Lemma C2_accepted_iff_unset_or_match_witness :
  (accepted FilterReadFile chained "a.sql" initial <->
   unset (latest initial) \/ latest initial = Some "20151009_194541") /\
  (accepted FilterReadFile chained "a.sql" initial ->
   latest_after FilterReadFile chained "a.sql" initial
   = Some "20151010_120000").
Proof.
  apply (C2_accepted_iff_unset_or_match chained FilterReadFile "a.sql"
           initial "20151010_120000" "20151009_194541");
    reflexivity.
Defined.

(** The claim fails when the latest token is the empty string.  The
    first file is accepted and sets the latest token to its current
    token, which is empty because its first line ends in a space; the
    latest token is then neither null nor equal to the previous token of
    the second file, and the second file is accepted all the same. *)
Lemma C2_counterexample :
  run emptyThenStray FilterHighland ["a.sql"] initial
  = Finished (mkState (Some "") ["a.sql"]) /\
  header FilterHighland emptyThenStray "b.sql"
  = Some ("20151013_000000", "99999999_999999") /\
  accepted FilterHighland emptyThenStray "b.sql"
    (mkState (Some "") ["a.sql"]) /\
  ~ (latest (mkState (Some "") ["a.sql"]) = None \/
     latest (mkState (Some "") ["a.sql"]) = Some "99999999_999999").
Proof.
  repeat split. intros [E|E]; discriminate E.
Qed.

(** A null latest token and an empty one both let any file through. *)
Example unset_accepts_any :
  accepted FilterHighland strayFirst "a.sql" (mkState None []) /\
  accepted FilterHighland strayFirst "a.sql" (mkState (Some "") []) /\
  ~ accepted FilterHighland strayFirst "a.sql" initial.
Proof. repeat split. discriminate. Qed.

(** The skipped prefix of a listing leaves the state alone. *)
Lemma run_skipped (fs : filesystem) (v : script) (skipped : list string)
  (st : state) :
  Forall (fun f => skips v f = true) skipped ->
  run fs v skipped st = Finished st.
Proof.
  induction 1 as [|f l Hf Hl IH]; [apply run_nil|].
  now rewrite run_cons_skip.
Qed.

(** C10 (hardcoded baseline), as the scripts have it.  In the three
    scripts whose callback runs, a run starts with [latest] set to the
    literal 20151009_194541, which is not unset: the run over a listing
    is the series over the sorted names from that state, the names
    passed over before the first opened file change nothing, and that
    first file is accepted if and only if the previous token taken from
    it equals the literal; the series then goes on from its current
    token, and otherwise from the literal (or stalls, in the third
    script). *)
Theorem C10_first_file_checked_against_baseline (fs : filesystem)
  (v : script) (files skipped : list string) (file : string)
  (rest : list string) (cur prev : string) :
  JS.sort files = skipped ++ file :: rest ->
  Forall (fun f => skips v f = true) skipped ->
  skips v file = false ->
  header v fs file = Some (cur, prev) ->
  latest initial = Some "20151009_194541" /\
  ~ unset (latest initial) /\
  main fs v (Some files) = run fs v (file :: rest) initial /\
  (accepted v fs file initial <-> prev = "20151009_194541") /\
  main fs v (Some files)
  = (if String.eqb prev "20151009_194541"
     then run fs v rest (mkState (Some cur) [file])
     else if goes_on v then run fs v rest initial else Stalled initial).
Proof.
  intros Hsort Hsk Hs H.
  assert (Hmain : main fs v (Some files) = run fs v (file :: rest) initial).
  { cbn [main]. rewrite Hsort.
    now rewrite (run_app fs v skipped (file :: rest) initial initial
                   (run_skipped fs v skipped initial Hsk)). }
  assert (Hm : mismatch (latest initial) prev
               = negb (String.eqb prev "20151009_194541")).
  { cbn [initial latest mismatch JS.truthy JS.strict_neq andb baseline].
    now rewrite String.eqb_sym. }
  split; [reflexivity|]. split; [intros [E|E]; discriminate|].
  split; [exact Hmain|]. split.
  - destruct (accepted_iff_no_mismatch fs v file initial cur prev Hs H)
      as [Hiff _].
    rewrite Hiff, Hm, negb_false_iff. apply String.eqb_eq.
  - rewrite Hmain, (run_cons_header fs v file rest initial cur prev Hs H), Hm.
    now destruct (String.eqb prev "20151009_194541").
Qed.

Lemma C10_first_file_checked_against_baseline_witness :
  latest initial = Some "20151009_194541" /\
  ~ unset (latest initial) /\
  main chained FilterHighland (Some ["b.sql"; "a.sql"; ".gitkeep"])
  = run chained FilterHighland ("a.sql" :: ["b.sql"]) initial /\
  (accepted FilterHighland chained "a.sql" initial
   <-> "20151009_194541" = "20151009_194541") /\
  main chained FilterHighland (Some ["b.sql"; "a.sql"; ".gitkeep"])
  = (if String.eqb "20151009_194541" "20151009_194541"
     then run chained FilterHighland ["b.sql"]
            (mkState (Some "20151010_120000") ["a.sql"])
     else if goes_on FilterHighland
          then run chained FilterHighland ["b.sql"] initial
          else Stalled initial).
Proof.
  apply (C10_first_file_checked_against_baseline chained FilterHighland
           ["b.sql"; "a.sql"; ".gitkeep"] [".gitkeep"] "a.sql" ["b.sql"]
           "20151010_120000" "20151009_194541").
  - reflexivity.
  - repeat constructor.
  - reflexivity.
  - reflexivity.
Defined.

(** The claim fails for the highland snippet of the blog post, which
    starts from another literal and so rejects a first file whose
    previous token is 20151009_194541, and for the first script, which
    starts from the literal and still does not accept such a file: its
    callback never runs. *)
Lemma C10_counterexample :
  latest blog_initial = Some "20160128_192500" /\
  latest blog_initial <> Some "20151009_194541" /\
  header_of FilterHighland day10
  = Some ("20151010_120000", "20151009_194541") /\
  blog_main lfOnly (Some ["a.sql"]) = Finished blog_initial /\
  main lfOnly EachHighland (Some ["a.sql"]) = Stalled initial.
Proof.
  split; [reflexivity|]. split; [discriminate|].
  repeat split; reflexivity.
Qed.

(** Each script starts its series in [initial]. *)
Lemma main_starts_at_baseline (fs : filesystem) (v : script)
  (files : list string) :
  main fs v (Some files) = run fs v (JS.sort files) initial.
Proof. reflexivity. Qed.

(** The scenario of the design notes: [a] chains from the baseline, [b]
    from [a], [c] from nothing; [a] and [b] are accepted, [c] is left
    out and the run completes. *)
Example scenario_two_accepted_one_rejected :
  validate (dir [("a", day10); ("b", day11); ("c", stray)]) FilterHighland
    "20151009_194541" ["c"; "a"; "b"]
  = Finished (mkState (Some "20151011_120000") ["a"; "b"]).
Proof. reflexivity. Qed.

(** The placeholder: passed over by the filterSeries scripts, opened by
    the eachSeries scripts; the third script dies on its missing second
    line, the first one waits for a callback that never comes. *)
Example placeholder_in_each_script :
  main withPlaceholder FilterHighland (Some ["a.sql"; ".gitkeep"])
  = Finished (mkState (Some "20151010_120000") ["a.sql"]) /\
  main withPlaceholder FilterReadFile (Some ["a.sql"; ".gitkeep"])
  = Finished (mkState (Some "20151010_120000") ["a.sql"]) /\
  main withPlaceholder EachHighland (Some ["a.sql"; ".gitkeep"])
  = Stalled initial /\
  main withPlaceholder EachReadFile (Some ["a.sql"; ".gitkeep"])
  = Uncaught initial.
Proof. repeat split. Qed.

(** An accepted file whose first line ends in a space leaves [latest]
    empty, and the test then lets the next file through whatever its
    previous token. *)
Example empty_token_lets_next_through :
  main emptyThenStray FilterHighland (Some ["a.sql"; "b.sql"])
  = Finished (mkState (Some "20151013_000000") ["a.sql"; "b.sql"]) /\
  latest_after FilterHighland emptyThenStray "a.sql" initial = Some "".
Proof. split; reflexivity. Qed.

(** ** Rejection *)

(** In the scripts whose mismatch branch calls back, a rejected file is
    left out and the series goes on with the next file. *)
Lemma mismatch_goes_on (fs : filesystem) (v : script) (file : string)
  (rest : list string) (st : state) (cur prev : string) :
  goes_on v = true ->
  skips v file = false ->
  header v fs file = Some (cur, prev) ->
  mismatch (latest st) prev = true ->
  run fs v (file :: rest) st = run fs v rest st.
Proof.
  intros Hg Hs H Hm.
  now rewrite (run_cons_header fs v file rest st cur prev Hs H), Hm, Hg.
Qed.

(** Those scripts reach their final callback whenever every name is the
    placeholder or a file with two header lines. *)
Lemma run_reaches_final_callback (fs : filesystem) (v : script)
  (files : list string) :
  goes_on v = true ->
  Forall (fun f => skips v f = true \/ exists h, header v fs f = Some h)
         files ->
  forall st, exists st', run fs v files st = Finished st'.
Proof.
  intros Hg. induction 1 as [|f l Hf Hl IH]; intros st.
  - exists st. apply run_nil.
  - destruct (skips v f) eqn:Hs; [rewrite run_cons_skip by exact Hs; apply IH|].
    destruct Hf as [Hs' | [[cur prev] Hh]]; [congruence|].
    rewrite (run_cons_header fs v f l st cur prev Hs Hh), Hg.
    destruct (mismatch (latest st) prev); apply IH.
Qed.

(** Rejection by a mismatch changes nothing in the state, in any script. *)
Lemma rejection_keeps_state (fs : filesystem) (v : script) (file : string)
  (st : state) (cur prev : string) :
  skips v file = false ->
  header v fs file = Some (cur, prev) ->
  mismatch (latest st) prev = true ->
  state_of (run fs v [file] st) st = st.
Proof.
  intros Hs H Hm.
  now rewrite (state_after_header fs v file st cur prev Hs H), Hm.
Qed.

(** C4 (a mismatch does not halt the run), at a directory whose first
    file chains from nothing and whose second file chains from the
    baseline.  The third script returns false from its mismatch branch
    without calling back: its series stalls on the first file, the
    second file is never looked at and the final callback never runs.
    The two filterSeries scripts call back on the mismatch, go on and
    hand over the second file. *)
Theorem C4_return_false_stalls_the_run :
  main strayFirst EachReadFile (Some ["b.sql"; "a.sql"]) = Stalled initial /\
  (~ exists l,
       delivers (main strayFirst EachReadFile (Some ["b.sql"; "a.sql"])) l) /\
  main strayFirst FilterReadFile (Some ["b.sql"; "a.sql"])
  = Finished (mkState (Some "20151010_120000") ["b.sql"]) /\
  main strayFirst FilterHighland (Some ["b.sql"; "a.sql"])
  = Finished (mkState (Some "20151010_120000") ["b.sql"]).
Proof.
  repeat split; try reflexivity.
  intros (l & st & E & _). discriminate E.
Qed.

(** C5 (rejection is non-destructive), at the same directory and the
    third script.  Rejecting the first file leaves the state as it was,
    but the following file is not evaluated at all, although against
    the unchanged token it would be accepted; in the second script the
    series does go on from the unchanged state. *)
Theorem C5_following_file_not_evaluated :
  state_of (run strayFirst EachReadFile ["a.sql"] initial) initial = initial /\
  run strayFirst EachReadFile ["a.sql"; "b.sql"] initial = Stalled initial /\
  run strayFirst EachReadFile ["b.sql"] initial
  = Finished (mkState (Some "20151010_120000") ["b.sql"]) /\
  run strayFirst FilterReadFile ["a.sql"; "b.sql"] initial
  = run strayFirst FilterReadFile ["b.sql"] initial.
Proof. repeat split. Qed.

(** ** Files that cannot be read or have no second line *)

Lemma not_delivered_stalled (st : state) :
  ~ exists l, delivers (Stalled st) l.
Proof. intros (l & st' & E & _). discriminate E. Qed.

Lemma not_delivered_uncaught (st : state) :
  ~ exists l, delivers (Uncaught st) l.
Proof. intros (l & st' & E & _). discriminate E. Qed.






(** C7, as the scripts have it.  When a file cannot be opened or read,
    no further file is processed and the final callback never runs: the
    readFile scripts log the error and return without calling back, so
    the series stalls; the highland scripts die on the stream error
    nobody handles.  What was accepted so far stays in the script's
    variables and nothing is handed to the caller. *)
Theorem C7_unreadable_file_ends_the_run (fs : filesystem) (v : script)
  (pre : list string) (file : string) (rest : list string)
  (st0 st : state) :
  run fs v pre st0 = Finished st ->
  skips v file = false ->
  fs file = None ->
  run fs v (pre ++ file :: rest) st0
  = (if streams v then Uncaught st else Stalled st) /\
  (~ exists l, delivers (run fs v (pre ++ file :: rest) st0) l).
Proof.
  intros Hpre Hs Hf.
  rewrite (run_app fs v pre (file :: rest) st0 st Hpre).
  rewrite (run_cons_unreadable fs v file rest st Hf Hs).
  split; [reflexivity|].
  destruct (streams v);
    [apply not_delivered_uncaught | apply not_delivered_stalled].
Qed.

Lemma C7_unreadable_file_ends_the_run_witness :
  run unreadableSecond EachReadFile (["a.sql"] ++ "b.sql" :: ["c.sql"]) initial
  = (if streams EachReadFile
     then Uncaught (mkState (Some "20151010_120000") ["a.sql"])
     else Stalled (mkState (Some "20151010_120000") ["a.sql"])) /\
  (~ exists l,
       delivers (run unreadableSecond EachReadFile
                   (["a.sql"] ++ "b.sql" :: ["c.sql"]) initial) l).
Proof.
  apply (C7_unreadable_file_ends_the_run unreadableSecond EachReadFile
           ["a.sql"] "b.sql" ["c.sql"] initial
           (mkState (Some "20151010_120000") ["a.sql"]));
    reflexivity.
Defined.

(** The claim fails: after the unreadable file the series stalls, the
    later file is not processed and nothing is handed to the caller. *)
Lemma C7_counterexample :
  main unreadableSecond FilterReadFile (Some ["a.sql"; "b.sql"; "c.sql"])
  = Stalled (mkState (Some "20151010_120000") ["a.sql"]) /\
  (~ exists l,
       delivers
         (main unreadableSecond FilterReadFile
            (Some ["a.sql"; "b.sql"; "c.sql"])) l).
Proof.
  split; [reflexivity | apply not_delivered_stalled].
Qed.

(** ** Tokens and line ends *)

(** The readFile scripts take the substring after the last space,
    trimmed; the highland scripts take it as it is. *)
Lemma token_spec (v : script) (line : string) :
  token v line = if streams v then after_last_space line
                 else JS.trim (after_last_space line).
Proof. unfold token. now rewrite lastField_spec. Qed.

(** In the readFile scripts a token surrounded by white space other
    than the space comes out bare. *)
Lemma token_readFile_bare (v : script) (p w1 t w2 : string) :
  streams v = false ->
  all_white w1 = true -> JS.occurs JS.SP w1 = false ->
  no_white t = true ->
  all_white w2 = true -> JS.occurs JS.SP w2 = false ->
  token v (p ++ String JS.SP (w1 ++ t ++ w2)) = t.
Proof.
  intros Hv H1 S1 Ht H2 S2. unfold token. rewrite Hv.
  rewrite lastField_after_space, lastField_no_space.
  - now apply trim_bare.
  - now rewrite !occurs_app, S1, S2, no_white_no_space.
Qed.

(** C8 (trimmed token), at a header line that ends in a carriage
    return.  The highland scripts call no trim: their token keeps the
    carriage return, where the readFile scripts, which do trim, give
    the bare token, the substring after the last space trimmed. *)
Theorem C8_highland_token_is_not_trimmed :
  token EachHighland ("-- Previous timestamp: 20151009_194541" ++ String JS.CR "")
  = ("20151009_194541" ++ String JS.CR "")%string /\
  token FilterHighland ("-- Previous timestamp: 20151009_194541" ++ String JS.CR "")
  = ("20151009_194541" ++ String JS.CR "")%string /\
  JS.trim (after_last_space
             ("-- Previous timestamp: 20151009_194541" ++ String JS.CR ""))
  = "20151009_194541" /\
  token FilterReadFile ("-- Previous timestamp: 20151009_194541" ++ String JS.CR "")
  = "20151009_194541" /\
  token EachReadFile ("-- Previous timestamp: 20151009_194541" ++ String JS.CR "")
  = "20151009_194541".
Proof. repeat split. Qed.

Lemma all_white_cr : all_white (String JS.CR "") = true.
Proof. reflexivity. Qed.

Lemma occurs_cr (c : ascii) (l : string) :
  Ascii.eqb JS.CR c = false ->
  JS.occurs c (l ++ String JS.CR "") = JS.occurs c l.
Proof.
  intros H. rewrite occurs_app. cbn [JS.occurs]. now rewrite H, !orb_false_r.
Qed.

(** The readFile scripts take the same token from a line whether or not
    a carriage return is left at its end. *)
Lemma token_readFile_cr (v : script) (line : string) :
  streams v = false ->
  token v (line ++ String JS.CR "") = token v line.
Proof.
  intros Hv. unfold token. rewrite Hv.
  rewrite lastField_app by reflexivity.
  now apply trim_app_white.
Qed.

(** The readFile scripts take the same two tokens from a file whose
    header lines end in LF and from one whose header lines end in CRLF. *)
Lemma header_readFile_any_eol (v : script) (l0 l1 rest rest' : string) :
  streams v = false ->
  JS.occurs JS.LF l0 = false ->
  JS.occurs JS.LF l1 = false ->
  header_of v [(l0 ++ JS.crlf ++ l1 ++ JS.crlf ++ rest')%string]
  = Some (token v l0, token v l1) /\
  header_of v [(l0 ++ JS.nl ++ l1 ++ JS.nl ++ rest)%string]
  = Some (token v l0, token v l1).
Proof.
  intros Hv H0 H1. unfold header_of, lines_of, readFile. rewrite Hv.
  cbn [contents]. rewrite !append_nil_r. split.
  - unfold JS.crlf.
    change (l0 ++ String JS.CR (String JS.LF "") ++ l1
            ++ String JS.CR (String JS.LF "") ++ rest')%string
      with (l0 ++ String JS.CR "" ++ String JS.LF
              (l1 ++ String JS.CR "" ++ String JS.LF rest'))%string.
    rewrite <- (append_assoc l0), split_line
      by (now rewrite occurs_cr).
    rewrite <- (append_assoc l1), split_line
      by (now rewrite occurs_cr).
    cbn [nth_error]. now rewrite !token_readFile_cr.
  - unfold JS.nl.
    change (l0 ++ String JS.LF "" ++ l1 ++ String JS.LF "" ++ rest)%string
      with (l0 ++ String JS.LF (l1 ++ String JS.LF rest))%string.
    now rewrite !split_line.
Qed.








(** A CRLF file is accepted by the fourth script as the LF file is. *)
Example crlf_file_is_accepted :
  main crlfOnly FilterHighland (Some ["a.sql"])
  = Finished (mkState (Some "20151010_120000") ["a.sql"]) /\
  main crlfOnly FilterReadFile (Some ["a.sql"])
  = Finished (mkState (Some "20151010_120000") ["a.sql"]) /\
  main lfOnly FilterHighland (Some ["a.sql"])
  = Finished (mkState (Some "20151010_120000") ["a.sql"]).
Proof. repeat split. Qed.

(** ** How much of a file is read *)

(** The array of lines the readFile scripts build holds the whole text
    of the file: joined again it is the file. *)
Lemma lines_rebuild_file (s : string) :
  String.concat JS.nl (JS.split JS.LF s) = s.
Proof.
  induction s as [|a s IH]; [reflexivity|].
  destruct (Ascii.eqb a JS.LF) eqn:Ha.
  - apply Ascii.eqb_eq in Ha; subst a. rewrite split_cons_sep.
    pose proof (split_nonempty JS.LF s) as Hn.
    cbn [String.concat]. destruct (JS.split JS.LF s); [congruence|].
    now rewrite IH.
  - destruct (split_cons_other JS.LF a s Ha) as (p & ps & E1 & E2).
    rewrite E2. rewrite E1 in IH. destruct ps as [|q ps].
    + simpl in IH |- *. now rewrite IH.
    + cbn [String.concat] in IH |- *. cbn [append]. now rewrite IH.
Qed.

(** C3 (bounded reading), at a file of two header lines followed by any
    filler.  The readFile scripts are handed the whole file, header and
    filler, and split all of it into lines, so what they hold grows with
    the file; the highland pipeline pulls the first chunk only and takes
    the same two tokens. *)
Theorem C3_readFile_holds_the_whole_file (filler : string) :
  read_by_readFile (withFiller filler) = 79 + String.length filler /\
  lines_of FilterReadFile (withFiller filler)
  = "-- Increment timestamp: 20151010_120000"
    :: "-- Previous timestamp: 20151009_194541"
    :: JS.split JS.LF filler /\
  lines_of EachReadFile (withFiller filler)
  = lines_of FilterReadFile (withFiller filler) /\
  Highland.pulled (withFiller filler) = 1 /\
  read_by_highland (withFiller filler) = 79 /\
  header_of FilterHighland (withFiller filler)
  = header_of FilterReadFile (withFiller filler).
Proof.
  assert (Hlines : lines_of FilterReadFile (withFiller filler)
                   = "-- Increment timestamp: 20151010_120000"
                     :: "-- Previous timestamp: 20151009_194541"
                     :: JS.split JS.LF filler).
  { assert (E : contents (withFiller filler)
                = ("-- Increment timestamp: 20151010_120000"
                   ++ String JS.LF
                        ("-- Previous timestamp: 20151009_194541"
                         ++ String JS.LF filler))%string).
    { cbn. now rewrite append_nil_r. }
    unfold lines_of, readFile. cbn [streams]. rewrite E.
    now rewrite !split_line by reflexivity. }
  repeat split.
  - unfold read_by_readFile, readFile, withFiller. cbn [contents].
    now rewrite append_nil_r, length_append.
  - exact Hlines.
Qed.

(** * Further properties of the scripts *)

(** ** The four scripts as one step *)

Lemma header_of_none (v : script) (src : source) :
  header_of v src = None -> nth_error (lines_of v src) 1 = None.
Proof.
  unfold header_of. destruct (lines_of v src) as [|l0 [|l1 ls]];
    simpl; intros H; congruence.
Qed.

(** Each iteratee, under its driver, is [step]. *)
Lemma run_cons_step (fs : filesystem) (v : script) (file : string)
  (rest : list string) (st : state) :
  run fs v (file :: rest) st =
    match step fs v file st with
    | Halt o => o
    | Continue st' => run fs v rest st'
    end.
Proof.
  unfold step. destruct (skips v file) eqn:Hs.
  - now apply run_cons_skip.
  - destruct (fs file) as [src|] eqn:Hf.
    + destruct (header_of v src) as [[cur prev]|] eqn:Hh.
      * rewrite (run_cons_header fs v file rest st cur prev Hs).
        -- destruct (mismatch (latest st) prev); [|reflexivity].
           now destruct (goes_on v).
        -- unfold header. now rewrite Hf.
      * apply header_of_none in Hh. unfold lines_of in Hh.
        destruct v; cbn [skips streams listens] in *;
          [ now apply (run_cons_listened fs file rest st src) | | | ];
          cbn [run Async.eachSeries Async.filterSeries];
          unfold filter_readFile, each_readFile, filter_highland;
          now rewrite ?Hs, Hf, Hh.
    + now apply run_cons_unreadable.
Qed.

Lemma state_of_run_cons (fs : filesystem) (v : script) (file : string)
  (rest : list string) (st d : state) :
  state_of (run fs v (file :: rest) st) d =
    match step fs v file st with
    | Halt o => state_of o d
    | Continue st' => state_of (run fs v rest st') d
    end.
Proof. rewrite run_cons_step. now destruct (step fs v file st). Qed.

(** A step keeps the state, or appends the file and sets [latest] to
    its current token after a passed test. *)
Lemma step_cases (fs : filesystem) (v : script) (file : string) (st : state) :
  (exists o, step fs v file st = Halt o /\ state_of o st = st /\
             o <> NotStarted /\ forall st', o <> Finished st') \/
  step fs v file st = Continue st \/
  (exists cur prev,
     skips v file = false /\
     header v fs file = Some (cur, prev) /\
     mismatch (latest st) prev = false /\
     step fs v file st
     = Continue (mkState (Some cur) (validFiles st ++ [file]))).
Proof.
  unfold step, header. destruct (skips v file); [now right; left|].
  destruct (fs file) as [src|].
  - destruct (header_of v src) as [[cur prev]|].
    + destruct (mismatch (latest st) prev) eqn:Hm.
      * destruct (goes_on v); [now right; left|].
        left. exists (Stalled st). repeat split; discriminate.
      * right; right. now exists cur, prev.
    + left. destruct (listens v);
        [exists (Stalled st) | exists (Uncaught st)];
        repeat split; discriminate.
  - left. destruct (streams v);
      [exists (Uncaught st) | exists (Stalled st)];
      repeat split; discriminate.
Qed.

(** A series that started never ends as a listing that failed. *)
Lemma run_started (fs : filesystem) (v : script) (files : list string) :
  forall st : state, run fs v files st <> NotStarted.
Proof.
  induction files as [|f files IH]; intros st.
  - rewrite run_nil. discriminate.
  - rewrite run_cons_step. destruct (step_cases fs v f st)
      as [(o & -> & _ & Ho & _) | [-> | (cur & prev & _ & _ & _ & ->)]];
      [exact Ho | apply IH | apply IH].
Qed.

Lemma state_of_dflt (fs : filesystem) (v : script) (files : list string)
  (st d d' : state) :
  state_of (run fs v files st) d = state_of (run fs v files st) d'.
Proof.
  pose proof (run_started fs v files st) as H.
  now destruct (run fs v files st).
Qed.

(** ** What a run accepts *)

Lemma final_token_snoc (b cur prev : string) (hs : list (string * string)) :
  final_token b (hs ++ [(cur, prev)]) = cur.
Proof. unfold final_token. rewrite map_app. apply last_last. Qed.

Lemma linked_snoc (hs : list (string * string)) :
  forall (b cur prev : string),
  linked b hs ->
  final_token b hs = "" \/ prev = final_token b hs ->
  linked b (hs ++ [(cur, prev)]).
Proof.
  induction hs as [|[c p] hs IH]; intros b cur prev Hl Hp.
  - simpl. split; [exact Hp | exact I].
  - destruct Hl as [Hb Hl]. rewrite final_token_cons in Hp.
    cbn [app linked]. split; [exact Hb | now apply IH].
Qed.

Lemma linked_chain (hs : list (string * string)) :
  forall b : string,
  b <> "" -> Forall (fun h => fst h <> "") hs -> linked b hs -> chain b hs.
Proof.
  induction hs as [|[c p] hs IH]; intros b Hb Hne Hl; [exact I|].
  inversion Hne as [|h hs' Hc Hrest]; subst. destruct Hl as [[E|E] Hl].
  - contradiction.
  - split; [exact E | now apply IH].
Qed.

Lemma accepted_linked_from (fs : filesystem) (v : script) (b : string)
  (files : list string) :
  forall st : state,
  (exists hs, Forall2 (fun f h => header v fs f = Some h) (validFiles st) hs /\
              linked b hs /\ latest st = Some (final_token b hs)) ->
  exists hs,
    Forall2 (fun f h => header v fs f = Some h)
            (validFiles (state_of (run fs v files st) st)) hs /\
    linked b hs /\
    latest (state_of (run fs v files st) st) = Some (final_token b hs).
Proof.
  induction files as [|f files IH]; intros st Hst.
  - now rewrite run_nil.
  - rewrite state_of_run_cons.
    destruct (step_cases fs v f st)
      as [(o & -> & Ho & _) | [-> | (cur & prev & _ & Hh & Hm & ->)]].
    + now rewrite Ho.
    + exact (IH st Hst).
    + destruct Hst as (hs & H2 & Hl & Hlat).
      set (st1 := mkState (Some cur) (validFiles st ++ [f])).
      assert (H1 : exists hs1,
                 Forall2 (fun f h => header v fs f = Some h)
                         (validFiles st1) hs1 /\
                 linked b hs1 /\ latest st1 = Some (final_token b hs1)).
      { exists (hs ++ [(cur, prev)]). split; [|split].
        - apply Forall2_app; [exact H2 | now constructor].
        - apply linked_snoc; [exact Hl|].
          apply mismatch_false_iff in Hm. rewrite Hlat in Hm.
          destruct Hm as [[E|E]|E]; try discriminate.
          + left. now injection E.
          + right. now injection E.
        - now rewrite final_token_snoc. }
      destruct (IH st1 H1) as (hs1 & A & B & C).
      exists hs1. rewrite (state_of_dflt fs v files st1 st st1).
      now repeat split.
Qed.

(** X1 (what is accepted links up).  In every script and for every
    listing and starting token [b], finished or not: the accepted files
    all have a readable header, each one's previous token is the latest
    token at the time it was accepted (the starting token, or the
    current token of the file accepted before) unless that token was
    empty, and [latest] ends as the current token of the last accepted
    file, or as [b] when nothing was accepted.  When no token involved
    is empty, the accepted files form a chain from [b]. *)
Theorem X1_accepted_files_link_up (fs : filesystem) (v : script) (b : string)
  (files : list string) :
  exists hs,
    Forall2 (fun f h => header v fs f = Some h)
            (validFiles (state_of (run fs v files (mkState (Some b) []))
                                  (mkState (Some b) []))) hs /\
    linked b hs /\
    latest (state_of (run fs v files (mkState (Some b) []))
                     (mkState (Some b) []))
    = Some (final_token b hs) /\
    (b <> "" -> Forall (fun h => fst h <> "") hs -> chain b hs).
Proof.
  destruct (accepted_linked_from fs v b files (mkState (Some b) []))
    as (hs & A & B & C).
  - exists []. repeat split. constructor.
  - exists hs. repeat split; try assumption.
    intros Hb Hne. now apply linked_chain.
Qed.

Lemma subseq_nil_l (files : list string) : subseq [] files.
Proof. induction files; now constructor. Qed.

Lemma accepted_grows (fs : filesystem) (v : script) (files : list string) :
  forall st : state,
  exists kept,
    validFiles (state_of (run fs v files st) st) = validFiles st ++ kept /\
    subseq kept files /\
    Forall (fun f => skips v f = false) kept.
Proof.
  induction files as [|f files IH]; intros st.
  - exists []. rewrite run_nil, app_nil_r. repeat constructor.
  - rewrite state_of_run_cons.
    destruct (step_cases fs v f st)
      as [(o & -> & Ho & _) | [-> | (cur & prev & Hs & _ & _ & ->)]].
    + exists []. rewrite Ho, app_nil_r.
      split; [reflexivity|]. split; [apply subseq_nil_l | constructor].
    + destruct (IH st) as (kept & A & B & C).
      exists kept. split; [exact A|]. split; [now constructor | exact C].
    + set (st1 := mkState (Some cur) (validFiles st ++ [f])).
      destruct (IH st1) as (kept & A & B & C).
      exists (f :: kept). rewrite (state_of_dflt fs v files st1 st st1), A.
      cbn [st1 validFiles]. rewrite <- app_assoc.
      split; [reflexivity|]. split; now constructor.
Qed.

(** X2 (the accepted list only grows, in listing order).  In every
    script, from any state and whatever the outcome, [validFiles] after
    the run is [validFiles] before it followed by some of the processed
    names, in the order they were processed; nothing is ever taken out. *)
Theorem X2_accepted_list_grows_in_order (fs : filesystem) (v : script)
  (files : list string) (st : state) :
  exists kept,
    validFiles (state_of (run fs v files st) st) = validFiles st ++ kept /\
    subseq kept files.
Proof.
  destruct (accepted_grows fs v files st) as (kept & A & B & _).
  now exists kept.
Qed.

Lemma run_opened (fs : filesystem) (v : script) (files : list string) :
  forall st : state, run fs v files st = run fs v (opened v files) st.
Proof.
  induction files as [|f files IH]; intros st; [reflexivity|].
  cbn [opened filter]. destruct (skips v f) eqn:Hs; cbn [negb].
  - rewrite run_cons_skip by exact Hs. apply IH.
  - rewrite !run_cons_step. destruct (step fs v f st); [reflexivity|].
    apply IH.
Qed.

(** X3 (the placeholder has no effect).  In the two filterSeries scripts
    a listing with and without the names [.gitkeep] gives the same
    outcome, whatever the file of that name holds, and a [.gitkeep] that
    was not in the accepted list is not in it afterwards. *)
Theorem X3_placeholder_has_no_effect (fs : filesystem) (v : script)
  (files : list string) (st : state) :
  run fs v files st = run fs v (opened v files) st /\
  (skips v gitkeep = true ->
   ~ In gitkeep (validFiles st) ->
   ~ In gitkeep (validFiles (state_of (run fs v files st) st))).
Proof.
  split; [apply run_opened|].
  intros Hs Hnot Hin.
  destruct (accepted_grows fs v files st) as (kept & A & _ & C).
  rewrite A in Hin. apply in_app_or in Hin as [Hin|Hin]; [now apply Hnot|].
  rewrite Forall_forall in C. specialize (C gitkeep Hin). congruence.
Qed.

(** X12 (script 3 finishes only with everything accepted).  When the
    third script reaches its final callback, every listed file was
    accepted: it never prints a list that leaves a file out. *)
Theorem X12_each_readFile_finishes_with_all (fs : filesystem)
  (files : list string) :
  forall st st' : state,
  run fs EachReadFile files st = Finished st' ->
  validFiles st' = validFiles st ++ files.
Proof.
  induction files as [|f files IH]; intros st st' H.
  - rewrite run_nil in H. injection H as <-. now rewrite app_nil_r.
  - rewrite run_cons_step in H.
    destruct (step_cases fs EachReadFile f st)
      as [(o & E & _ & _ & Ho) | [E | (cur & prev & _ & _ & _ & E)]];
      rewrite E in H.
    + now apply Ho in H.
    + unfold step in E. cbn [skips goes_on] in E.
      destruct (fs f) as [src|]; [|discriminate].
      destruct (header_of EachReadFile src) as [[cur prev]|]; [|discriminate].
      destruct (mismatch (latest st) prev); [discriminate|].
      injection E as E. apply (f_equal validFiles) in E. cbn in E.
      symmetry in E. now apply app_single_neq in E.
    + rewrite (IH _ _ H). cbn [validFiles]. now rewrite <- app_assoc.
Qed.

Lemma X12_each_readFile_finishes_with_all_witness :
  validFiles (mkState (Some "20151011_120000") ["a.sql"; "b.sql"])
  = validFiles initial ++ ["a.sql"; "b.sql"].
Proof.
  apply (X12_each_readFile_finishes_with_all chained ["a.sql"; "b.sql"]
           initial (mkState (Some "20151011_120000") ["a.sql"; "b.sql"])).
  reflexivity.
Defined.

(** X13 (script 3 against script 2).  Whenever the third script reaches
    its final callback on names that hold no [.gitkeep], the second
    script reaches it too, with the same accepted list and the same
    latest token. *)
Theorem X13_each_readFile_agrees_with_filter (fs : filesystem)
  (files : list string) :
  forall st st' : state,
  Forall (fun f => skips FilterReadFile f = false) files ->
  run fs EachReadFile files st = Finished st' ->
  run fs FilterReadFile files st = Finished st'.
Proof.
  induction files as [|f files IH]; intros st st' Hs H.
  - now rewrite run_nil in *.
  - inversion Hs as [|f' l Hf Hrest]; subst.
    rewrite run_cons_step in *. unfold step in *. rewrite Hf.
    cbn [skips streams goes_on] in *.
    destruct (fs f) as [src|]; [|discriminate].
    change (header_of FilterReadFile src) with (header_of EachReadFile src).
    destruct (header_of EachReadFile src) as [[cur prev]|]; [|discriminate].
    destruct (mismatch (latest st) prev); [discriminate|].
    now apply IH.
Qed.

Lemma X13_each_readFile_agrees_with_filter_witness :
  run chained FilterReadFile ["a.sql"; "b.sql"] initial
  = Finished (mkState (Some "20151011_120000") ["a.sql"; "b.sql"]).
Proof.
  apply (X13_each_readFile_agrees_with_filter chained ["a.sql"; "b.sql"]
           initial (mkState (Some "20151011_120000") ["a.sql"; "b.sql"])).
  - repeat constructor.
  - reflexivity.
Defined.

(** ** Halting and finishing *)

Lemma finished_all_readable (fs : filesystem) (v : script)
  (files : list string) :
  forall st st' : state,
  run fs v files st = Finished st' ->
  Forall (fun f => skips v f = true \/ exists h, header v fs f = Some h) files.
Proof.
  induction files as [|f files IH]; intros st st' H; [constructor|].
  rewrite run_cons_step in H. unfold step in H.
  destruct (skips v f) eqn:Hs.
  - constructor; [now left | exact (IH _ _ H)].
  - assert (Hh : exists h, header v fs f = Some h).
    { unfold header. destruct (fs f) as [src|].
      - destruct (header_of v src) as [h|]; [now exists h|].
        destruct (listens v); discriminate.
      - destruct (streams v); discriminate. }
    constructor; [now right|].
    unfold header in Hh. destruct (fs f) as [src|]; [|now destruct Hh].
    destruct (header_of v src) as [[cur prev]|]; [|now destruct Hh].
    destruct (mismatch (latest st) prev).
    + destruct (goes_on v); [exact (IH _ _ H) | discriminate].
    + exact (IH _ _ H).
Qed.

(** X15 (when the result is printed).  In the three scripts whose
    mismatch branch calls back, the final callback is reached if and
    only if every listed name is the passed-over placeholder or a file
    whose two header lines reach the script's callback; a mismatch
    never keeps the result from being printed.  No header reaches the
    callback of the first script, which so prints its result for the
    empty listing only. *)
Theorem X15_final_callback_iff_all_readable (fs : filesystem) (v : script)
  (files : list string) (st : state) :
  goes_on v = true ->
  ((exists st', run fs v files st = Finished st') <->
   Forall (fun f => skips v f = true \/ exists h, header v fs f = Some h)
          files).
Proof.
  intros Hg. split.
  - intros (st' & H). exact (finished_all_readable fs v files st st' H).
  - intros H. exact (run_reaches_final_callback fs v files Hg H st).
Qed.

Lemma X15_final_callback_iff_all_readable_witness :
  (exists st', run strayFirst FilterHighland [".gitkeep"; "a.sql"; "b.sql"]
                 initial = Finished st') <->
  Forall (fun f => skips FilterHighland f = true \/
                   exists h, header FilterHighland strayFirst f = Some h)
         [".gitkeep"; "a.sql"; "b.sql"].
Proof.
  apply (X15_final_callback_iff_all_readable strayFirst FilterHighland
           [".gitkeep"; "a.sql"; "b.sql"] initial).
  reflexivity.
Defined.

(** ** The order of processing *)

Lemma leb_trans (a : string) : forall b c : string,
  String.leb a b = true -> String.leb b c = true -> String.leb a c = true.
Proof.
  unfold String.leb.
  induction a as [|x a IH]; intros [|y b] [|z c]; simpl;
    try reflexivity; try discriminate.
  unfold Ascii.compare.
  destruct (N.compare_spec (N_of_ascii x) (N_of_ascii y)) as [Exy|Lxy|Gxy];
    destruct (N.compare_spec (N_of_ascii y) (N_of_ascii z)) as [Eyz|Lyz|Gyz];
    destruct (N.compare_spec (N_of_ascii x) (N_of_ascii z)) as [Exz|Lxz|Gxz];
    try reflexivity; try discriminate; try lia.
  apply IH.
Qed.

Lemma leb_false_flip (a b : string) :
  String.leb a b = false -> String.leb b a = true.
Proof.
  intros H. destruct (String.leb_total a b) as [E|E]; congruence.
Qed.

Lemma insert_perm (x : string) (l : list string) :
  Permutation (JS.insert x l) (x :: l).
Proof.
  induction l as [|y l IH]; simpl; [reflexivity|].
  destruct (String.leb x y); [reflexivity|].
  rewrite IH. apply perm_swap.
Qed.

Lemma sort_perm (l : list string) : Permutation (JS.sort l) l.
Proof.
  induction l as [|x l IH]; simpl; [reflexivity|].
  now rewrite insert_perm, IH.
Qed.

Lemma insert_ascending (x : string) (l : list string) :
  ascending l -> ascending (JS.insert x l).
Proof.
  unfold ascending. induction 1 as [|y l Hl IH Hy]; simpl.
  - repeat constructor.
  - destruct (String.leb x y) eqn:Hxy.
    + constructor; [now constructor|]. constructor; [exact Hxy|].
      rewrite Forall_forall in *. intros z Hz.
      exact (leb_trans x y z Hxy (Hy z Hz)).
    + constructor; [exact IH|].
      rewrite Forall_forall in *. intros z Hz.
      apply (Permutation_in _ (insert_perm x l)) in Hz.
      destruct Hz as [<-|Hz]; [now apply leb_false_flip | now apply Hy].
Qed.

Lemma sort_ascending (l : list string) : ascending (JS.sort l).
Proof.
  induction l as [|x l IH]; simpl; [constructor | now apply insert_ascending].
Qed.

(** X4 (the order of processing).  [files.sort()] hands the series the
    same names, each as often as it was listed, with every name below or
    equal to every later one in code-unit order. *)
Theorem X4_sort_orders_the_listing (files : list string) :
  Permutation (JS.sort files) files /\ ascending (JS.sort files).
Proof. split; [apply sort_perm | apply sort_ascending]. Qed.

Lemma ascending_unique (l1 : list string) : forall l2 : list string,
  ascending l1 -> ascending l2 -> Permutation l1 l2 -> l1 = l2.
Proof.
  unfold ascending.
  induction l1 as [|a l1 IH]; intros l2 H1 H2 Hp.
  - now apply Permutation_nil in Hp.
  - destruct l2 as [|b l2];
      [symmetry in Hp; now apply Permutation_nil in Hp|].
    inversion H1 as [|a' l1' S1 F1]; subst.
    inversion H2 as [|b' l2' S2 F2]; subst.
    rewrite Forall_forall in F1, F2.
    assert (Hab : a = b).
    { assert (Ha : In a (b :: l2))
        by (apply (Permutation_in _ Hp); now left).
      assert (Hb : In b (a :: l1))
        by (apply (Permutation_in _ (Permutation_sym Hp)); now left).
      destruct Ha as [Ha|Ha]; [now symmetry|].
      destruct Hb as [Hb|Hb]; [exact Hb|].
      apply String.leb_antisym; [now apply F1 | now apply F2]. }
    subst b. f_equal. apply IH; try assumption.
    now apply Permutation_cons_inv in Hp.
Qed.

(** X5 (the order of the listing does not matter).  In every script,
    two listings of the same names, in whatever order [readdir] gives
    them, lead to the same outcome: the same accepted list and the same
    latest token. *)
Theorem X5_listing_order_does_not_matter (fs : filesystem) (v : script)
  (files files' : list string) :
  Permutation files files' ->
  main fs v (Some files) = main fs v (Some files').
Proof.
  intros Hp. cbn [main]. f_equal.
  apply ascending_unique; try apply sort_ascending.
  now rewrite !sort_perm.
Qed.

Lemma X5_listing_order_does_not_matter_witness :
  main chained FilterReadFile (Some ["b.sql"; ".gitkeep"; "a.sql"])
  = main chained FilterReadFile (Some [".gitkeep"; "a.sql"; "b.sql"]).
Proof.
  apply (X5_listing_order_does_not_matter chained FilterReadFile
           ["b.sql"; ".gitkeep"; "a.sql"] [".gitkeep"; "a.sql"; "b.sql"]).
  apply (Permutation_cons_append [".gitkeep"; "a.sql"] "b.sql").
Defined.

(** ** Reading through highland and through readFile *)

Lemma nth_error_firstn2 {A} (l : list A) :
  nth_error (firstn 2 l) 0 = nth_error l 0 /\
  nth_error (firstn 2 l) 1 = nth_error l 1.
Proof. destruct l as [|a [|b l]]; split; reflexivity. Qed.

Lemma delivered_empty_text (src : source) :
  Highland.delivered src = [] <-> contents src = "".
Proof.
  split.
  - intros E. rewrite <- contents_delivered. now rewrite E.
  - intros E. destruct (Highland.delivered src) as [|x r] eqn:D;
      [reflexivity|].
    assert (Hx : In x (Highland.delivered src)) by (rewrite D; now left).
    unfold Highland.delivered in Hx. apply filter_In in Hx as [_ Hx].
    rewrite <- contents_delivered, D in E. cbn [contents] in E.
    destruct x; [discriminate Hx | discriminate E].
Qed.

(** The array [toArray] hands over, told from the text of the stream. *)
Lemma toArray_text (src : source) :
  Highland.toArray src
  = match contents src with
    | EmptyString => []
    | String _ _ => firstn 2 (JS.splitLines (contents src))
    end.
Proof.
  destruct (contents src) as [|c t] eqn:E.
  - apply delivered_empty_text in E. unfold Highland.toArray, Highland.take2.
    now rewrite E.
  - rewrite <- E. apply toArray_lines. intros D.
    apply delivered_empty_text in D. congruence.
Qed.

Lemma chomp_cases (l : string) :
  JS.chomp l = l \/ l = (JS.chomp l ++ String JS.CR "")%string.
Proof.
  induction l as [|c l IH]; [now left|].
  cbn [JS.chomp]. destruct l as [|d l].
  - destruct (Ascii.eqb_spec c JS.CR) as [->|]; [now right | now left].
  - destruct IH as [IH|IH]; [left | right].
    + now rewrite IH.
    + cbn [append]. now rewrite <- IH.
Qed.

Lemma trimmed_token_chomp (l : string) :
  JS.trim (lastField (JS.chomp l)) = JS.trim (lastField l).
Proof.
  destruct (chomp_cases l) as [->|E]; [reflexivity|].
  rewrite E at 2. rewrite lastField_app by reflexivity.
  now rewrite trim_app_white.
Qed.

(** A line of the CR?LF cut is the line of the LF cut at the same
    place, with or without its carriage return. *)
Lemma splitLines_nth (s : string) (i : nat) :
  match nth_error (JS.split JS.LF s) i, nth_error (JS.splitLines s) i with
  | Some a, Some b => b = a \/ b = JS.chomp a
  | None, None => True
  | _, _ => False
  end.
Proof.
  unfold JS.splitLines.
  destruct (exists_last (split_nonempty JS.LF s)) as (P & x & ->).
  rewrite removelast_last, last_last.
  revert i. induction P as [|a P IH]; intros i.
  - destruct i as [|i]; cbn; [now left|]. now destruct i.
  - destruct i as [|i]; cbn; [now right | apply IH].
Qed.

(** X7 (the streaming rewrite against the readFile original).  From
    every file, however it is chunked and whether its lines end in LF
    or in CRLF, a readFile script takes the trimmed versions of the two
    tokens the fourth script (highland, no listeners) takes, and it
    finds no second line exactly when that script finds none. *)
Theorem X7_readFile_takes_trimmed_highland_tokens (src : source) :
  header_of FilterReadFile src
  = option_map (fun h => (JS.trim (fst h), JS.trim (snd h)))
               (header_of FilterHighland src) /\
  header_of EachReadFile src = header_of FilterReadFile src.
Proof.
  split; [|reflexivity].
  unfold header_of, lines_of, token, readFile. cbn [streams listens].
  rewrite toArray_text. destruct (contents src) as [|c t] eqn:E.
  - reflexivity.
  - rewrite <- E.
    destruct (nth_error_firstn2 (JS.splitLines (contents src))) as [-> ->].
    pose proof (splitLines_nth (contents src) 0) as H0.
    pose proof (splitLines_nth (contents src) 1) as H1.
    destruct (nth_error (JS.split JS.LF (contents src)) 0) as [a0|],
             (nth_error (JS.splitLines (contents src)) 0) as [b0|];
      try contradiction; [|reflexivity].
    destruct (nth_error (JS.split JS.LF (contents src)) 1) as [a1|],
             (nth_error (JS.splitLines (contents src)) 1) as [b1|];
      try contradiction; [|reflexivity].
    cbn [option_map fst snd].
    destruct H0 as [->| ->], H1 as [->| ->];
      now rewrite ?trimmed_token_chomp.
Qed.

Lemma firstn_length_le2 {A} (l : list A) : List.length (firstn 2 l) <= 2.
Proof. rewrite length_firstn. lia. Qed.

(** X8 (chunking does not matter).  The array the highland pipeline
    hands to the callback depends only on the text of the file, not on
    how the stream cuts it into chunks, also when a cut falls between a
    carriage return and its line feed; it never holds more than two
    lines. *)
Theorem X8_highland_lines_ignore_chunking (src src' : source) :
  contents src = contents src' ->
  Highland.toArray src = Highland.toArray src' /\
  List.length (Highland.toArray src) <= 2.
Proof.
  intros E. rewrite !toArray_text, E. split; [reflexivity|].
  destruct (contents src'); [simpl; lia | apply firstn_length_le2].
Qed.

Lemma X8_highland_lines_ignore_chunking_witness :
  Highland.toArray day10_crlf_cut = Highland.toArray [contents day10_crlf_cut]
  /\ List.length (Highland.toArray day10_crlf_cut) <= 2.
Proof.
  apply (X8_highland_lines_ignore_chunking day10_crlf_cut
           [contents day10_crlf_cut]).
  reflexivity.
Defined.

(** ** Tokens and lines *)

Lemma occurs_trimStart (c : ascii) (s : string) :
  JS.occurs c s = false -> JS.occurs c (JS.trimStart s) = false.
Proof.
  induction s as [|a s IH]; [reflexivity|].
  intros H. cbn [JS.trimStart]. destruct (JS.is_white a); [|exact H].
  cbn [JS.occurs] in H. apply orb_false_iff in H as [_ H]. now apply IH.
Qed.

Lemma occurs_trimEnd (c : ascii) (s : string) :
  JS.occurs c s = false -> JS.occurs c (JS.trimEnd s) = false.
Proof.
  induction s as [|a s IH]; [reflexivity|].
  intros H. cbn [JS.occurs] in H. apply orb_false_iff in H as [Ha H].
  specialize (IH H). cbn [JS.trimEnd].
  destruct (JS.trimEnd s) as [|d t].
  - destruct (JS.is_white a); [reflexivity|].
    cbn [JS.occurs]. now rewrite Ha.
  - cbn [JS.occurs] in IH |- *. now rewrite Ha, IH.
Qed.

Lemma trimStart_clean (s : string) :
  match JS.trimStart s with
  | EmptyString => True
  | String c _ => JS.is_white c = false
  end.
Proof.
  induction s as [|a s IH]; [exact I|].
  cbn [JS.trimStart]. now destruct (JS.is_white a) eqn:Ha.
Qed.

Lemma trimEnd_idem (s : string) : JS.trimEnd (JS.trimEnd s) = JS.trimEnd s.
Proof.
  induction s as [|a s IH]; [reflexivity|].
  cbn [JS.trimEnd]. destruct (JS.trimEnd s) as [|d t] eqn:E.
  - destruct (JS.is_white a) eqn:Ha; [reflexivity|].
    cbn [JS.trimEnd]. now rewrite Ha.
  - cbn [JS.trimEnd] in IH |- *. now rewrite IH.
Qed.

Lemma trim_idem (s : string) : JS.trim (JS.trim s) = JS.trim s.
Proof.
  unfold JS.trim. pose proof (trimStart_clean s) as H.
  destruct (JS.trimStart s) as [|c u]; [reflexivity|].
  assert (E : JS.trimStart (JS.trimEnd (String c u))
              = JS.trimEnd (String c u)).
  { cbn [JS.trimEnd]. destruct (JS.trimEnd u); rewrite ?H;
      cbn [JS.trimStart]; now rewrite H. }
  rewrite E. apply trimEnd_idem.
Qed.

(** X10 (what a token looks like).  In every script the token taken from
    a line holds no space, whatever the line; in the readFile scripts it
    has, besides, no white space left at either end (trimming it again
    changes nothing). *)
Theorem X10_token_has_no_space (v : script) (line : string) :
  JS.occurs JS.SP (token v line) = false /\
  (streams v = false -> JS.trim (token v line) = token v line).
Proof.
  unfold token. destruct (streams v).
  - split; [apply pop_split_clean | discriminate].
  - split; [|intros _; apply trim_idem].
    unfold JS.trim. apply occurs_trimEnd, occurs_trimStart.
    apply pop_split_clean.
Qed.

Lemma split_length (c : ascii) (s : string) :
  List.length (JS.split c s) = S (count c s).
Proof.
  induction s as [|a s IH]; [reflexivity|].
  cbn [JS.split count]. destruct (Ascii.eqb a c).
  - simpl. now rewrite IH.
  - destruct (JS.split c s); simpl in *; lia.
Qed.

(** X11 (the readFile scripts split the whole file).  The array of lines
    a readFile script builds has one entry more than the file has line
    feeds, and joined with line feeds it is the file's text again:
    every character of the file is kept in it. *)
Theorem X11_readFile_lines_are_the_file (src : source) :
  String.concat JS.nl (lines_of FilterReadFile src) = contents src /\
  List.length (lines_of FilterReadFile src)
  = S (count JS.LF (contents src)) /\
  lines_of EachReadFile src = lines_of FilterReadFile src.
Proof.
  unfold lines_of, readFile. cbn [streams]. split; [|split].
  - apply lines_rebuild_file.
  - apply split_length.
  - reflexivity.
Qed.
